(** * aiicy function-python3: the gRPC function host, embedded in Rocq

    A shallow embedding of [function-python3.py]: the configuration
    loader [mo.Load], the registry loader [load_modules], the listener
    set-up [get_grpc_server], the logger set-up [get_logger] and the
    dispatcher [mo.Call].

    Python objects are values of one inductive type, exceptions are
    values of [exn], and every function of the program is a function on
    an explicit state: the process state user code can reach (working
    directory, [sys.path], environment, file system) together with a
    record of what the servicer logged and which handlers it invoked. *)

From Stdlib Require Import ZArith String Ascii List Bool Lia.
From Stdlib.Strings Require Import Byte.
From stdpp Require Import base option gmap strings pretty list.

Set Warnings "-register-all".

Local Open Scope string_scope.
Local Open Scope Z_scope.

(** ** Python objects *)

(** The objects the program handles: what [yaml.load] and [json.loads]
    return, what handlers take and return.  A [str] is a sequence of
    code points below 256; dictionaries keep insertion order and have
    string keys. *)
Inductive value : Type :=
  | PNone
  | PBool (b : bool)
  | PInt (z : Z)
  | PStr (s : string)
  | PBytes (b : list byte)
  | PList (l : list value)
  | PDict (d : list (string * value)).

(** Exceptions, by the class Python raises.  [Exception msg] is
    [Exception('msg')]; [ExceptionFrom tag err] is [Exception(tag, err)],
    the two-argument form the dispatcher uses to wrap an error. *)
Inductive exn : Type :=
  | Exception (msg : string)
  | ExceptionFrom (tag : string) (err : exn)
  | KeyError (key : string)
  | TypeError
  | IndexError
  | AttributeError (attr : string)
  | OSError (path : string)
  | ValueError
  | UserError (msg : string).

Inductive Result (A : Type) : Type :=
  | Ok (a : A)
  | Raise (e : exn).
Arguments Ok {A} a.
Arguments Raise {A} e.

Definition is_ok {A} (r : Result A) : bool :=
  match r with Ok _ => true | Raise _ => false end.

(** ** Dictionaries, membership and subscripts *)

Fixpoint dict_get (k : string) (d : list (string * value)) : option value :=
  match d with
  | [] => None
  | (k', v) :: d' => if String.eqb k k' then Some v else dict_get k d'
  end.

(** [d[k] = v]: an existing key keeps its place, a new one goes last. *)
Fixpoint dict_set (k : string) (v : value) (d : list (string * value))
  : list (string * value) :=
  match d with
  | [] => [(k, v)]
  | (k', v') :: d' =>
      if String.eqb k k' then (k, v) :: d' else (k', v') :: dict_set k v d'
  end.

Definition dict_has (k : string) (d : list (string * value)) : bool :=
  match dict_get k d with Some _ => true | None => false end.

Fixpoint is_substring (s t : string) : bool :=
  String.prefix s t ||
  match t with
  | EmptyString => false
  | String _ t' => is_substring s t'
  end.

Definition is_str (k : string) (v : value) : bool :=
  match v with PStr s => String.eqb s k | _ => false end.

(** ['k' in c]: key membership in a dict, element membership in a list,
    substring test in a str; the other objects are not iterable. *)
Definition py_in (k : string) (c : value) : Result bool :=
  match c with
  | PDict d => Ok (dict_has k d)
  | PList l => Ok (existsb (is_str k) l)
  | PStr s => Ok (is_substring k s)
  | PNone | PBool _ | PInt _ | PBytes _ => Raise TypeError
  end.

(** [c['k']] with a str subscript. *)
Definition py_getitem (c : value) (k : string) : Result value :=
  match c with
  | PDict d =>
      match dict_get k d with
      | Some v => Ok v
      | None => Raise (KeyError k)
      end
  | _ => Raise TypeError
  end.

(** [c['k'] = v]; the result is the container after the assignment. *)
Definition py_setitem (c : value) (k : string) (v : value) : Result value :=
  match c with
  | PDict d => Ok (PDict (dict_set k v d))
  | _ => Raise TypeError
  end.

Fixpoint chars (s : string) : list value :=
  match s with
  | EmptyString => []
  | String a s' => PStr (String a EmptyString) :: chars s'
  end.

(** [for x in c]: the elements of a list, the keys of a dict, the
    characters of a str. *)
Definition py_iter (c : value) : Result (list value) :=
  match c with
  | PList l => Ok l
  | PDict d => Ok (map (fun kv => PStr (fst kv)) d)
  | PStr s => Ok (chars s)
  | PBytes b => Ok (map (fun x => PInt (Z.of_N (Byte.to_N x))) b)
  | PNone | PBool _ | PInt _ => Raise TypeError
  end.

(** ** Strings and paths *)

(** [s.split(sep)] for a one-character separator: never empty. *)
Fixpoint split_on (sep : ascii) (s : string) : list string :=
  match s with
  | EmptyString => [EmptyString]
  | String a s' =>
      if Ascii.eqb a sep then EmptyString :: split_on sep s'
      else match split_on sep s' with
           | [] => [String a EmptyString]
           | w :: ws => String a w :: ws
           end
  end.

(** [v.split('.')]: only a str has the method. *)
Definition py_split_dot (v : value) : Result (list string) :=
  match v with
  | PStr s => Ok (split_on "."%char s)
  | _ => Raise (AttributeError "split")
  end.

(** [l.pop()]: the last element and the list without it. *)
Definition list_pop {A} (l : list A) : Result (A * list A) :=
  match rev l with
  | [] => Raise IndexError
  | x :: r => Ok (x, rev r)
  end.

Fixpoint ends_with_slash (s : string) : bool :=
  match s with
  | EmptyString => false
  | String a EmptyString => Ascii.eqb a "/"%char
  | String _ s' => ends_with_slash s'
  end.

(** [posixpath.join(a, b)] on two str arguments. *)
Definition posix_join (a b : string) : string :=
  if String.prefix "/" b then b
  else if (String.eqb a EmptyString || ends_with_slash a)%bool then a ++ b
  else a ++ "/" ++ b.

(** [os.path.join(a, b)] where [a] is a str: [b] must be a str too. *)
Definition path_join (a : string) (b : value) : Result string :=
  match b with
  | PStr s => Ok (posix_join a s)
  | _ => Raise TypeError
  end.

(** [s.encode('utf-8')] on code points below 256. *)
Definition utf8_char (a : ascii) : list byte :=
  let n := N_of_ascii a in
  let b x := match Byte.of_N x with Some y => y | None => x00%byte end in
  if (n <? 128)%N then [b n]
  else [b (N.lor 192 (N.shiftr n 6)); b (N.lor 128 (N.land n 63))].

Fixpoint str_encode (s : string) : list byte :=
  match s with
  | EmptyString => []
  | String a s' => utf8_char a ++ str_encode s'
  end.

(** The number of leading slashes [posixpath.normpath] keeps: two for
    exactly two, one otherwise. *)
Definition initial_slashes (path : string) : nat :=
  if String.prefix "/" path then
    if (String.prefix "//" path && negb (String.prefix "///" path))%bool
    then 2%nat else 1%nat
  else 0%nat.

(** The loop of [posixpath.normpath] over the components. *)
Fixpoint norm_comps (initial : nat) (comps new_comps : list string)
  : list string :=
  match comps with
  | [] => new_comps
  | comp :: comps' =>
      if (String.eqb comp EmptyString || String.eqb comp ".")%bool
      then norm_comps initial comps' new_comps
      else if (negb (String.eqb comp "..")
               || (Nat.eqb initial 0
                   && match new_comps with [] => true | _ :: _ => false end)
               || match last new_comps with
                  | Some c => String.eqb c ".."
                  | None => false
                  end)%bool
      then norm_comps initial comps' (new_comps ++ [comp])
      else match new_comps with
           | [] => norm_comps initial comps' new_comps
           | _ :: _ => norm_comps initial comps' (removelast new_comps)
           end
  end.

Fixpoint slashes (n : nat) : string :=
  match n with
  | O => EmptyString
  | S n' => String "/" (slashes n')
  end.

(** [posixpath.normpath(path)] *)
Definition normpath (path : string) : string :=
  if String.eqb path EmptyString then "."
  else
    let initial := initial_slashes path in
    let comps := norm_comps initial (split_on "/" path) [] in
    let path := slashes initial ++ String.concat "/" comps in
    if String.eqb path EmptyString then "." else path.

(** [posixpath.abspath(path)] in the working directory [cwd]. *)
Definition abspath (cwd path : string) : string :=
  normpath (if String.prefix "/" path then path else posix_join cwd path).

Fixpoint rstrip_slashes (s : string) : string :=
  match s with
  | EmptyString => EmptyString
  | String a s' =>
      match rstrip_slashes s' with
      | EmptyString =>
          if Ascii.eqb a "/" then EmptyString else String a EmptyString
      | t => String a t
      end
  end.

(** [posixpath.dirname(p)] *)
Definition dirname (p : string) : string :=
  match split_on "/" p with
  | [] | [_] => EmptyString
  | comps =>
      let head := String.concat "/" (removelast comps) ++ "/" in
      match rstrip_slashes head with
      | EmptyString => head
      | stripped => stripped
      end
  end.

(** [os.path.abspath] and [os.path.dirname] on an object: a str or
    bytes, the latter with the working directory as bytes. *)
Definition py_abspath (cwd : string) (p : value) : Result value :=
  match p with
  | PStr s => Ok (PStr (abspath cwd s))
  | PBytes b =>
      Ok (PBytes (list_byte_of_string
                    (abspath (string_of_list_byte (str_encode cwd))
                             (string_of_list_byte b))))
  | _ => Raise TypeError
  end.

Definition py_dirname (p : value) : value :=
  match p with
  | PStr s => PStr (dirname s)
  | PBytes b =>
      PBytes (list_byte_of_string (dirname (string_of_list_byte b)))
  | v => v
  end.

(** The truth value of an object. *)
Definition truthy (v : value) : bool :=
  match v with
  | PNone => false
  | PBool b => b
  | PInt z => negb (Z.eqb z 0)
  | PStr s => negb (String.eqb s EmptyString)
  | PBytes b => match b with [] => false | _ :: _ => true end
  | PList l => match l with [] => false | _ :: _ => true end
  | PDict d => match d with [] => false | _ :: _ => true end
  end.

(** ** The process and the servicer's state *)

(** What user code can reach: the working directory, [sys.path], the
    environment and the file system.  [dir_of p] is the directory
    [os.chdir(p)] lands in, as [os.getcwd()] reports it afterwards, or
    [None] when the call raises; [file_of p] is the content of the file
    at the absolute path [p]. *)
Record World : Type := mkWorld {
  cwd : string;
  sys_path : list value;
  environ : gmap string string;
  dir_of : string -> option string;
  file_of : string -> option (list byte)
}.

(** What the servicer itself does that a caller can observe: the
    records it logs and the handlers it invokes, oldest first. *)
Inductive event : Type :=
  | LogError (err : exn)
  | Invoke (name : string) (msg ctx : value).

Record State : Type := mkState {
  world : World;
  trace : list event
}.

Definition set_cwd (d : string) (w : World) : World :=
  mkWorld d (sys_path w) (environ w) (dir_of w) (file_of w).

Definition set_sys_path (p : list value) (w : World) : World :=
  mkWorld (cwd w) p (environ w) (dir_of w) (file_of w).

Definition set_world (w : World) (st : State) : State :=
  mkState w (trace st).

Definition emit (e : event) (st : State) : State :=
  mkState (world st) (trace st ++ [e]).

(** User code runs on the world; the program runs on the state.  An
    exception leaves the effects that came before it in place. *)
Definition U (A : Type) : Type := World -> Result A * World.
Definition M (A : Type) : Type := State -> Result A * State.

Definition ret {A} (a : A) : M A := fun st => (Ok a, st).
Definition raise {A} (e : exn) : M A := fun st => (Raise e, st).

Definition bind {A B} (m : M A) (f : A -> M B) : M B :=
  fun st =>
    match m st with
    | (Ok a, st') => f a st'
    | (Raise e, st') => (Raise e, st')
    end.

(** [try: m  except BaseException as err: h err] *)
Definition try_except {A} (m : M A) (h : exn -> M A) : M A :=
  fun st =>
    match m st with
    | (Ok a, st') => (Ok a, st')
    | (Raise e, st') => h e st'
    end.

Definition lift {A} (r : Result A) : M A := fun st => (r, st).

Definition run_user {A} (u : U A) : M A :=
  fun st => let '(r, w) := u (world st) in (r, set_world w st).

Notation "x <- m ;; k" := (bind m (fun x => k))
  (at level 100, m at next level, right associativity).
Notation "m ;;; k" := (bind m (fun _ => k))
  (at level 100, right associativity).

(** [os.getcwd()] *)
Definition getcwd : M string := fun st => (Ok (cwd (world st)), st).

(** [os.chdir(p)] *)
Definition chdir (p : string) : M unit :=
  fun st =>
    match dir_of (world st) p with
    | Some d => (Ok tt, set_world (set_cwd d (world st)) st)
    | None => (Raise (OSError p), st)
    end.

(** [sys.path.append(v)] *)
Definition sys_path_append (v : value) : M unit :=
  fun st =>
    (Ok tt, set_world (set_sys_path (sys_path (world st) ++ [v]) (world st)) st).

(** [with open(p, 'rb') as f: f.read()]; a relative path is taken from
    the working directory. *)
Definition read_file (p : value) : M (list byte) :=
  fun st =>
    match p with
    | PStr s =>
        match file_of (world st) (posix_join (cwd (world st)) s) with
        | Some b => (Ok b, st)
        | None => (Raise (OSError s), st)
        end
    | _ => (Raise TypeError, st)
    end.

(** [self.log.error(err, exc_info=True)] *)
Definition log_error (err : exn) : M unit :=
  fun st => (Ok tt, emit (LogError err) st).

(** ** What the program imports *)

(** The [json] module: [json.loads] on bytes and [json.dumps]. *)
Class JsonLib : Type := {
  json_loads : list byte -> Result value;
  json_dumps : value -> Result string
}.

(** A handler object: the instance a function's class constructs, with
    the two methods the dispatcher calls. *)
Record Handler : Type := mkHandler {
  get_codedir : U value;
  handler : value -> value -> U value
}.

(** A loaded module: its attributes that can be called to construct a
    handler from the code directory. *)
Definition PyModule : Type := string -> option (value -> U Handler).

(** [getattr(py_mod, name)(arg)] *)
Definition construct (py_mod : PyModule) (name : string) (arg : value)
  : M Handler :=
  match py_mod name with
  | Some class => run_user (class arg)
  | None => raise (AttributeError name)
  end.

(** ** The request message *)

Record Request : Type := mkRequest {
  FunctionName : string;
  Payload : list byte;
  QOS : Z;
  Topic : string;
  Timestamp : Z;
  FunctionInvokeID : string
}.

(** [request.Payload = b] *)
Definition set_Payload (b : list byte) (r : Request) : Request :=
  mkRequest (FunctionName r) b (QOS r) (Topic r) (Timestamp r)
            (FunctionInvokeID r).

(** ** The listener and the logger *)

(** [grpc.ssl_server_credentials(pairs, root_certificates,
    require_client_auth)] *)
Record Credentials : Type := mkCredentials {
  private_key_certificate_chain_pairs : list (list byte * list byte);
  root_certificates : option (list byte);
  require_client_auth : bool
}.

Inductive Port : Type :=
  | secure_port (address : value) (credentials : Credentials)
  | insecure_port (address : value).

(** The object [grpc.server(...)] returns, with the port added to it. *)
Record GrpcServer : Type := mkGrpcServer {
  max_workers : option value;
  options : list (string * value);
  maximum_concurrent_rpcs : option value;
  port : Port
}.

Inductive Level : Type := DEBUG | INFO | WARNING | ERROR.

(** [logging.handlers.TimedRotatingFileHandler(filename, when='h',
    interval, backupCount)] with its level. *)
Record FileHandler : Type := mkFileHandler {
  filename : value;
  interval : value;
  backupCount : value;
  handler_level : Level
}.

(** What [get_logger] asked of [logging]: the name it requested the
    logger under, and the level and the handler it gave that logger,
    if any.  Under a name that is false the library answers with the
    root logger, with the level that one has. *)
Record Logger : Type := mkLogger {
  logger_name : value;
  logger_level : option Level;
  logger_handler : option FileHandler
}.

(** The servicer object after [Load]. *)
Record mo : Type := mkMo {
  config : value;
  log : Logger;
  modules : gmap string Handler;
  server : GrpcServer
}.

(** [fs[name] = module].  A list or a dict is not hashable.  The
    requests name functions by a str, so of the registry only the str
    keys are kept: another hashable key is one no request can name. *)
Definition registry_set (name : value) (module : Handler)
    (fs : gmap string Handler) : Result (gmap string Handler) :=
  match name with
  | PStr s => Ok (<[s := module]> fs)
  | PList _ | PDict _ => Raise TypeError
  | PNone | PBool _ | PInt _ | PBytes _ => Ok fs
  end.

(** [k1 not in c or k2 not in c or ...], evaluated left to right. *)
Fixpoint any_missing (ks : list string) (c : value) : Result bool :=
  match ks with
  | [] => Ok false
  | k :: ks' =>
      match py_in k c with
      | Raise e => Raise e
      | Ok false => Ok true
      | Ok true => any_missing ks' c
      end
  end.

(** [c[k] if k in c else None] *)
Definition get_if_present (c : value) (k : string) : M (option value) :=
  present <- lift (py_in k c) ;;
  if present : bool then v <- lift (py_getitem c k) ;; ret (Some v)
  else ret None.

(** [if k1 in c: if k2 in c[k1]: x = c[k1][k2]] *)
Definition get_nested (c : value) (k1 k2 : string) : M (option value) :=
  o <- get_if_present c k1 ;;
  match o with
  | Some c1 => get_if_present c1 k2
  | None => ret None
  end.

Section Program.

Context `{JsonLib}.

(** [SourceFileLoader(name, path).load_module()]: runs the file at
    [path], taken from the working directory. *)
Variable load_module : string -> string -> U PyModule.

(** [os.makedirs(directory, exist_ok=True)] and the opening of the log
    file by the rotating handler, each on the path it is given. *)
Variable makedirs_for : value -> U unit.
Variable open_log_file : value -> U unit.

(** *** [load_modules] *)

Definition config_invalid_function : exn :=
  Exception "config invalid, missing function name, handler or codedir".

(** The body of the loop, for one function configuration. *)
Definition load_function (fc : value) (fs : gmap string Handler)
  : M (gmap string Handler) :=
  missing <- lift (any_missing ["name"; "handler"; "codedir"] fc) ;;
  if missing : bool then raise config_invalid_function
  else
    codedir <- lift (py_getitem fc "codedir") ;;
    sys_path_append codedir ;;;
    handler_ref <- lift (py_getitem fc "handler") ;;
    module_handler <- lift (py_split_dot handler_ref) ;;
    popped <- lift (list_pop module_handler) ;;
    let handler_name := fst popped in
    let module_handler := snd popped in
    curr_path <- getcwd ;;
    codedir <- lift (py_getitem fc "codedir") ;;
    target <- lift (path_join curr_path codedir) ;;
    chdir target ;;;
    popped <- lift (list_pop module_handler) ;;
    py_mod <- run_user (load_module handler_name (fst popped ++ ".py")) ;;
    codedir <- lift (py_getitem fc "codedir") ;;
    module <- construct py_mod handler_name codedir ;;
    name <- lift (py_getitem fc "name") ;;
    fs' <- lift (registry_set name module fs) ;;
    chdir curr_path ;;;
    ret fs'.

Fixpoint load_functions (c : list value) (fs : gmap string Handler)
  : M (gmap string Handler) :=
  match c with
  | [] => ret fs
  | fc :: c' => fs' <- load_function fc fs ;; load_functions c' fs'
  end.

Definition load_modules (c : value) : M (gmap string Handler) :=
  fcs <- lift (py_iter c) ;;
  load_functions fcs ∅.

(** *** [get_grpc_server] *)

Definition default_max_message_length : value := PInt (4 * 1024 * 1024).

Definition read_if_present (c : value) (k : string)
  : M (option (list byte)) :=
  o <- get_if_present c k ;;
  match o with
  | Some p => b <- read_file p ;; ret (Some b)
  | None => ret None
  end.

Definition get_grpc_server (c : value) : M GrpcServer :=
  max_workers <- get_nested c "workers" "max" ;;
  max_concurrent <- get_nested c "concurrent" "max" ;;
  message <- get_if_present c "message" ;;
  length_max <- match message with
                | Some m => get_nested m "length" "max"
                | None => ret None
                end ;;
  let max_message_length := default default_max_message_length length_max in
  ssl_ca <- read_if_present c "ca" ;;
  ssl_key <- read_if_present c "key" ;;
  ssl_cert <- read_if_present c "cert" ;;
  let s := mkGrpcServer max_workers
             [("grpc.max_send_message_length", max_message_length);
              ("grpc.max_receive_message_length", max_message_length)]
             max_concurrent in
  match ssl_key, ssl_cert with
  | Some key, Some cert =>
      let credentials :=
        mkCredentials [(key, cert)] ssl_ca
                      (match ssl_ca with Some _ => true | None => false end) in
      address <- lift (py_getitem c "address") ;;
      ret (s (secure_port address credentials))
  | _, _ =>
      address <- lift (py_getitem c "address") ;;
      ret (s (insecure_port address))
  end.

(** *** [get_logger] *)

Definition level_of (v : value) : Level :=
  if is_str "debug" v then DEBUG
  else if is_str "warn" v then WARNING
  else if is_str "error" v then ERROR
  else INFO.

(** [logging.getLogger(name)]: a name that is true and no str is
    refused; a name that is false stands for the root logger. *)
Definition getLogger (name : value) : Result unit :=
  match name with
  | PStr _ => Ok tt
  | _ => if truthy name then Raise TypeError else Ok tt
  end.

(** What [TimedRotatingFileHandler] does with the interval after it
    opened the file: [3600 * interval] added to a time, which only a
    number allows. *)
Definition rollover_interval (interval : value) : Result unit :=
  match interval with
  | PInt _ | PBool _ => Ok tt
  | _ => Raise TypeError
  end.

(** The logger record holds the name the logger was asked for. *)
Definition get_logger (c : value) : M Logger :=
  name <- lift (py_getitem c "name") ;;
  lift (getLogger name) ;;;
  let logger := mkLogger name None None in
  has_logger <- lift (py_in "logger" c) ;;
  if negb has_logger then ret logger
  else
    cl <- lift (py_getitem c "logger") ;;
    has_path <- lift (py_in "path" cl) ;;
    if negb has_path then ret logger
    else
      path <- lift (py_getitem cl "path") ;;
      curr_path <- getcwd ;;
      filename <- lift (py_abspath curr_path path) ;;
      run_user (makedirs_for (py_dirname filename)) ;;;
      level <- get_if_present cl "level" ;;
      let level := from_option level_of INFO level in
      age <- get_nested cl "age" "max" ;;
      let interval := default (PInt 15) age in
      backup <- get_nested cl "backup" "max" ;;
      let backupCount := default (PInt 15) backup in
      run_user (open_log_file filename) ;;;
      lift (rollover_interval interval) ;;;
      ret (mkLogger name (Some level)
             (Some (mkFileHandler filename interval backupCount level))).

(** *** [mo.Load] *)

Definition NAME_ENV : string := "AIICY_SERVICE_INSTANCE_NAME".
Definition ADDRESS_ENV : string := "AIICY_SERVICE_INSTANCE_ADDRESS".

Definition missing_name : exn := Exception "config invalid, missing name".
Definition missing_server : exn := Exception "config invalid, missing server".
Definition missing_address : exn :=
  Exception "config invalid, missing server address".
Definition missing_functions : exn :=
  Exception "config invalid, missing functions".

(** The overwrites from the environment, on the parsed configuration. *)
Definition overwrite_from_env (env : gmap string string) (config : value)
  : Result value :=
  match
    match env !! NAME_ENV with
    | Some name => py_setitem config "name" (PStr name)
    | None => Ok config
    end
  with
  | Raise e => Raise e
  | Ok config =>
      match env !! ADDRESS_ENV with
      | None => Ok config
      | Some address =>
          match py_in "server" config with
          | Raise e => Raise e
          | Ok has_server =>
              match
                if has_server : bool then Ok config
                else py_setitem config "server" (PDict [])
              with
              | Raise e => Raise e
              | Ok config =>
                  match py_getitem config "server" with
                  | Raise e => Raise e
                  | Ok section =>
                      match py_setitem section "address" (PStr address) with
                      | Raise e => Raise e
                      | Ok section => py_setitem config "server" section
                      end
                  end
              end
          end
      end
  end.

(** The four checks, in the order of the source. *)
Definition check_config (config : value) : Result unit :=
  match py_in "name" config with
  | Raise e => Raise e
  | Ok false => Raise missing_name
  | Ok true =>
      match py_in "server" config with
      | Raise e => Raise e
      | Ok false => Raise missing_server
      | Ok true =>
          match py_getitem config "server" with
          | Raise e => Raise e
          | Ok section =>
              match py_in "address" section with
              | Raise e => Raise e
              | Ok false => Raise missing_address
              | Ok true =>
                  match py_in "functions" config with
                  | Raise e => Raise e
                  | Ok false => Raise missing_functions
                  | Ok true => Ok tt
                  end
              end
          end
      end
  end.

(** The configuration after the overwrites, once it passed the checks. *)
Definition checked_config (env : gmap string string) (parsed : value)
  : Result value :=
  match overwrite_from_env env parsed with
  | Raise e => Raise e
  | Ok config =>
      match check_config config with
      | Raise e => Raise e
      | Ok _ => Ok config
      end
  end.

(** [Load] on the configuration [yaml.load] returned. *)
Definition Load (parsed : value) : M mo :=
  fun st =>
    (config <- lift (checked_config (environ (world st)) parsed) ;;
     log <- get_logger config ;;
     functions <- lift (py_getitem config "functions") ;;
     modules <- load_modules functions ;;
     section <- lift (py_getitem config "server") ;;
     server <- get_grpc_server section ;;
     ret (mkMo config log modules server)) st.

(** *** [mo.Call] *)

Definition function_not_found : exn := Exception "function not found".

Definition make_ctx (request : Request) : value :=
  PDict [("messageQOS", PInt (QOS request));
         ("messageTopic", PStr (Topic request));
         ("messageTimestamp", PInt (Timestamp request));
         ("functionName", PStr (FunctionName request));
         ("functionInvokeID", PStr (FunctionInvokeID request));
         ("invokeid", PStr (FunctionInvokeID request))].

(** The message for the handler: [{}], the parsed payload, or the
    payload itself when it does not parse. *)
Definition decode_payload (payload : list byte) : value :=
  match payload with
  | [] => PDict []
  | _ :: _ =>
      match json_loads payload with
      | Ok msg => msg
      | Raise _ => PBytes payload
      end
  end.

Definition user_code_invoke : string := "[UserCodeInvoke] ".
Definition user_code_return : string := "[UserCodeReturn] ".

(** The first [try] block: the handler runs in its code directory. *)
Definition invoke (name : string) (module : Handler) (msg ctx : value)
  : M value :=
  try_except
    (curr_path <- getcwd ;;
     codedir <- run_user (get_codedir module) ;;
     target <- lift (path_join curr_path codedir) ;;
     chdir target ;;;
     msg <- (fun st =>
               run_user (handler module msg ctx)
                        (emit (Invoke name msg ctx) st)) ;;
     chdir curr_path ;;;
     ret msg)
    (fun err =>
       log_error err ;;;
       raise (ExceptionFrom user_code_invoke err)).

(** The payload of the reply, from what the handler returned. *)
Definition encode_result (msg : value) : M (list byte) :=
  match msg with
  | PNone => ret []
  | PBytes b => ret b
  | _ =>
      try_except
        (s <- lift (json_dumps msg) ;; ret (str_encode s))
        (fun err =>
           log_error err ;;;
           raise (ExceptionFrom user_code_return err))
  end.

Definition Call (self : mo) (request : Request) : M Request :=
  match modules self !! FunctionName request with
  | None => raise function_not_found
  | Some module =>
      let ctx := make_ctx request in
      let msg := decode_payload (Payload request) in
      msg <- invoke (FunctionName request) module msg ctx ;;
      payload <- encode_result msg ;;
      ret (set_Payload payload request)
  end.

End Program.

(** ** A model of the [json] module *)

(** [json.dumps] with its default separators and [ensure_ascii], and
    [json.loads] on UTF-8 bytes, for the objects of [value].  Numbers
    are the integers: a literal with a fraction or an exponent is a
    float, which [value] does not have, and is rejected here.  An int
    is written and read with all its digits, whatever their number:
    the bound later interpreters put on the digits of a conversion is
    left out. *)
Module PyJson.

Definition dquote : ascii := ascii_of_N 34.
Definition backslash : ascii := ascii_of_N 92.

Definition hex_digit (n : N) : ascii :=
  ascii_of_N (if (n <? 10)%N then 48 + n else 87 + n)%N.

(** [\u00XX] *)
Definition escape_u (n : N) : string :=
  "\u00" ++ String (hex_digit (N.shiftr n 4))
              (String (hex_digit (N.land n 15)) EmptyString).

Definition escape_char (a : ascii) : string :=
  let n := N_of_ascii a in
  if (n =? 34)%N then String backslash (String dquote EmptyString)
  else if (n =? 92)%N then String backslash (String backslash EmptyString)
  else if (n =? 10)%N then "\n"
  else if (n =? 13)%N then "\r"
  else if (n =? 9)%N then "\t"
  else if (n =? 8)%N then "\b"
  else if (n =? 12)%N then "\f"
  else if ((n <? 32) || (126 <? n))%N then escape_u n
  else String a EmptyString.

Fixpoint escape (s : string) : string :=
  match s with
  | EmptyString => EmptyString
  | String a s' => escape_char a ++ escape s'
  end.

Definition quote (s : string) : string :=
  String dquote (escape s ++ String dquote EmptyString).

Fixpoint join (sep : string) (l : list string) : string :=
  match l with
  | [] => EmptyString
  | [s] => s
  | s :: l' => s ++ sep ++ join sep l'
  end.

Fixpoint dumps (v : value) : Result string :=
  match v with
  | PNone => Ok "null"
  | PBool true => Ok "true"
  | PBool false => Ok "false"
  | PInt z => Ok (pretty z)
  | PStr s => Ok (quote s)
  | PBytes _ => Raise TypeError
  | PList l =>
      match
        (fix items (l : list value) : Result (list string) :=
           match l with
           | [] => Ok []
           | x :: l' =>
               match dumps x with
               | Raise e => Raise e
               | Ok s =>
                   match items l' with
                   | Raise e => Raise e
                   | Ok ss => Ok (s :: ss)
                   end
               end
           end) l
      with
      | Raise e => Raise e
      | Ok ss => Ok ("[" ++ join ", " ss ++ "]")
      end
  | PDict d =>
      match
        (fix members (d : list (string * value)) : Result (list string) :=
           match d with
           | [] => Ok []
           | (k, x) :: d' =>
               match dumps x with
               | Raise e => Raise e
               | Ok s =>
                   match members d' with
                   | Raise e => Raise e
                   | Ok ss => Ok ((quote k ++ ": " ++ s) :: ss)
                   end
               end
           end) d
      with
      | Raise e => Raise e
      | Ok ss => Ok ("{" ++ join ", " ss ++ "}")
      end
  end.

(** The bytes as a str: ASCII, and the two-byte sequences of the code
    points 128 to 255. *)
Fixpoint utf8_decode (b : list byte) : option string :=
  match b with
  | [] => Some EmptyString
  | x :: b' =>
      let n := Byte.to_N x in
      if (n <? 128)%N then String (ascii_of_N n) <$> utf8_decode b'
      else if ((n =? 194) || (n =? 195))%N then
        match b' with
        | y :: b'' =>
            let m := Byte.to_N y in
            if ((128 <=? m) && (m <? 192))%N then
              String (ascii_of_N (N.lor (N.shiftl (N.land n 3) 6) (N.land m 63)))
                <$> utf8_decode b''
            else None
        | [] => None
        end
      else None
  end.

Definition is_ws (a : ascii) : bool :=
  let n := N_of_ascii a in
  ((n =? 32) || (n =? 9) || (n =? 10) || (n =? 13))%N.

Fixpoint skip_ws (s : string) : string :=
  match s with
  | String a s' => if is_ws a then skip_ws s' else s
  | EmptyString => s
  end.

Definition digit_of (a : ascii) : option Z :=
  let n := N_of_ascii a in
  if ((48 <=? n) && (n <=? 57))%N then Some (Z.of_N n - 48) else None.

Definition hex_of (a : ascii) : option N :=
  let n := N_of_ascii a in
  if ((48 <=? n) && (n <=? 57))%N then Some (n - 48)%N
  else if ((97 <=? n) && (n <=? 102))%N then Some (n - 87)%N
  else if ((65 <=? n) && (n <=? 70))%N then Some (n - 55)%N
  else None.

(** The digits after the first one. *)
Fixpoint more_digits (acc : Z) (s : string) : Z * string :=
  match s with
  | String a s' =>
      match digit_of a with
      | Some d => more_digits (10 * acc + d) s'
      | None => (acc, s)
      end
  | EmptyString => (acc, s)
  end.

Definition starts_float (s : string) : bool :=
  match s with
  | String a _ =>
      let n := N_of_ascii a in ((n =? 46) || (n =? 101) || (n =? 69))%N
  | EmptyString => false
  end.

(** [0] or a digit from 1 to 9 followed by digits. *)
Definition natural (s : string) : option (Z * string) :=
  match s with
  | String a s' =>
      match digit_of a with
      | Some 0 => if starts_float s' then None else Some (0, s')
      | Some d =>
          let '(z, r) := more_digits d s' in
          if starts_float r then None else Some (z, r)
      | None => None
      end
  | EmptyString => None
  end.

Definition number (s : string) : option (value * string) :=
  match s with
  | String "-" s' => (fun '(z, r) => (PInt (- z), r)) <$> natural s'
  | _ => (fun '(z, r) => (PInt z, r)) <$> natural s
  end.

Definition literal (word : string) (v : value) (s : string)
  : option (value * string) :=
  if String.prefix word s
  then Some (v, substring (String.length word)
                          (String.length s - String.length word) s)
  else None.

(** The character an escape letter stands for. *)
Definition unescape (e : ascii) : option N :=
  let n := N_of_ascii e in
  if (n =? 34)%N then Some 34%N
  else if (n =? 92)%N then Some 92%N
  else if (n =? 47)%N then Some 47%N
  else if (n =? 98)%N then Some 8%N
  else if (n =? 102)%N then Some 12%N
  else if (n =? 110)%N then Some 10%N
  else if (n =? 114)%N then Some 13%N
  else if (n =? 116)%N then Some 9%N
  else None.

(** The characters of a string literal, after the opening quote. *)
Fixpoint string_body (s : string) : option (string * string) :=
  match s with
  | EmptyString => None
  | String a r =>
      if Ascii.eqb a dquote then Some (EmptyString, r)
      else if Ascii.eqb a backslash then
        match r with
        | String "u" (String h1 (String h2 (String h3 (String h4 r')))) =>
            match hex_of h1, hex_of h2, hex_of h3, hex_of h4 with
            | Some 0%N, Some 0%N, Some c, Some d =>
                (fun '(t, r'') => (String (ascii_of_N (16 * c + d)) t, r''))
                  <$> string_body r'
            | _, _, _, _ => None
            end
        | String e r' =>
            match unescape e with
            | Some c =>
                (fun '(t, r'') => (String (ascii_of_N c) t, r''))
                  <$> string_body r'
            | None => None
            end
        | EmptyString => None
        end
      else if (N_of_ascii a <? 32)%N then None
      else (fun '(t, r') => (String a t, r')) <$> string_body r
  end.

Fixpoint parse_value (fuel : nat) (s : string) : option (value * string) :=
  match fuel with
  | O => None
  | S fuel =>
      match skip_ws s with
      | String "n" _ as s' => literal "null" PNone s'
      | String "t" _ as s' => literal "true" (PBool true) s'
      | String "f" _ as s' => literal "false" (PBool false) s'
      | String "[" r =>
          match skip_ws r with
          | String "]" r' => Some (PList [], r')
          | r' => parse_elements fuel r' []
          end
      | String "{" r =>
          match skip_ws r with
          | String "}" r' => Some (PDict [], r')
          | r' => parse_members fuel r' []
          end
      | String a r as s' =>
          if Ascii.eqb a dquote
          then (fun '(t, r') => (PStr t, r')) <$> string_body r
          else number s'
      | EmptyString => None
      end
  end
with parse_elements (fuel : nat) (s : string) (acc : list value)
  : option (value * string) :=
  match fuel with
  | O => None
  | S fuel =>
      match parse_value fuel s with
      | Some (v, r) =>
          match skip_ws r with
          | String "," r' => parse_elements fuel r' (acc ++ [v])
          | String "]" r' => Some (PList (acc ++ [v]), r')
          | _ => None
          end
      | None => None
      end
  end
with parse_members (fuel : nat) (s : string) (acc : list (string * value))
  : option (value * string) :=
  match fuel with
  | O => None
  | S fuel =>
      match skip_ws s with
      | String a r =>
          match (if Ascii.eqb a dquote then string_body r else None) with
          | Some (k, r) =>
              match skip_ws r with
              | String ":" r =>
                  match parse_value fuel r with
                  | Some (v, r) =>
                      match skip_ws r with
                      | String "," r' => parse_members fuel r' (dict_set k v acc)
                      | String "}" r' => Some (PDict (dict_set k v acc), r')
                      | _ => None
                      end
                  | None => None
                  end
              | _ => None
              end
          | None => None
          end
      | EmptyString => None
      end
  end.

Definition loads (b : list byte) : Result value :=
  match utf8_decode b with
  | None => Raise ValueError
  | Some s =>
      match parse_value (S (String.length s)) s with
      | Some (v, r) =>
          match skip_ws r with
          | EmptyString => Ok v
          | String _ _ => Raise ValueError
          end
      | None => Raise ValueError
      end
  end.

End PyJson.

#[export] Instance py_json : JsonLib :=
  {| json_loads := PyJson.loads; json_dumps := PyJson.dumps |}.

(** ** The vocabulary of the properties *)

(** *** The objects [json] writes and reads back *)

Fixpoint no_dup_keys (ks : list string) : bool :=
  match ks with
  | [] => true
  | k :: ks' => negb (existsb (String.eqb k) ks') && no_dup_keys ks'
  end.

(** Every dict in the object has each of its keys once, as a dict of
    Python has: the list of entries stands for a dict. *)
Fixpoint distinct_keys (v : value) : bool :=
  match v with
  | PList l => forallb distinct_keys l
  | PDict d =>
      no_dup_keys (map fst d) && forallb (fun '(_, x) => distinct_keys x) d
  | _ => true
  end.

(** What may follow a JSON text inside a larger one: nothing, a comma
    or a closing bracket. *)
Definition delimited (s : string) : bool :=
  match s with
  | EmptyString => true
  | String a _ => (Ascii.eqb a "," || Ascii.eqb a "]" || Ascii.eqb a "}")%bool
  end.

(** The first character of a number, and of any JSON text. *)
Definition number_start (a : ascii) : bool :=
  match PyJson.digit_of a with
  | Some _ => true
  | None => Ascii.eqb a "-"
  end.

Definition value_start (a : ascii) : bool :=
  (negb (PyJson.is_ws a) && negb (Ascii.eqb a "]")
   && negb (Ascii.eqb a "}"))%bool.

(** The text of an object parses back to it, in front of whatever
    closes or separates it, with fuel for its length. *)
Definition reads_back (v : value) : Prop :=
  forall s, PyJson.dumps v = Ok s ->
  forall fuel rest,
    (String.length s < fuel)%nat -> delimited rest = true ->
    PyJson.parse_value fuel (s ++ rest) = Some (v, rest).

(** User code that leaves [sys.path] as it finds it. *)
Definition keeps_sys_path {A} (u : U A) : Prop :=
  forall w, sys_path (snd (u w)) = sys_path w.

(** A function configuration that is a dict without one of the three
    keys. *)
Definition lacks_field (fc : value) : Prop :=
  exists d, fc = PDict d /\
    (dict_has "name" d = false \/ dict_has "handler" d = false \/
     dict_has "codedir" d = false).

(** A function configuration that is a dict with the three keys. *)
Definition has_fields (fc : value) : Prop :=
  exists d, fc = PDict d /\
    dict_has "name" d = true /\ dict_has "handler" d = true /\
    dict_has "codedir" d = true.

(** The loader and the classes it finds leave [sys.path] alone. *)
Definition loader_keeps_sys_path
    (load_module : string -> string -> U PyModule) : Prop :=
  (forall name path, keeps_sys_path (load_module name path)) /\
  (forall name path w py_mod w' attr class arg,
     load_module name path w = (Ok py_mod, w') ->
     py_mod attr = Some class -> keeps_sys_path (class arg)).

(** Whether the port was added with TLS credentials, and whether those
    ask the client for a certificate. *)
Definition tls_applied (s : GrpcServer) : bool :=
  match port s with
  | secure_port _ _ => true
  | insecure_port _ => false
  end.

Definition client_cert_verified (s : GrpcServer) : bool :=
  match port s with
  | secure_port _ credentials => require_client_auth credentials
  | insecure_port _ => false
  end.

(** A section whose optional parts have the expected shape: the nested
    limits are dicts where present and the TLS files can be read. *)
Definition optional_dict (k : string) (d : list (string * value)) : Prop :=
  match dict_get k d with
  | None | Some (PDict _) => True
  | Some _ => False
  end.

Definition readable (k : string) (d : list (string * value)) (st : State)
  : Prop :=
  match dict_get k d with
  | None => True
  | Some p => exists b, read_file p st = (Ok b, st)
  end.

Definition server_section_ok (d : list (string * value)) (st : State) : Prop :=
  dict_has "address" d = true /\
  optional_dict "workers" d /\ optional_dict "concurrent" d /\
  match dict_get "message" d with
  | None => True
  | Some (PDict m) => optional_dict "length" m
  | Some _ => False
  end /\
  readable "ca" d st /\ readable "key" d st /\ readable "cert" d st.

(** A name is at hand: in the file or from the environment. *)
Definition name_available (env : gmap string string)
    (d : list (string * value)) : Prop :=
  dict_has "name" d = true \/ is_Some (env !! NAME_ENV).

(** The configuration after the name overwrite. *)
Definition with_name (env : gmap string string) (d : list (string * value))
  : list (string * value) :=
  match env !! NAME_ENV with
  | Some name => dict_set "name" (PStr name) d
  | None => d
  end.


(** A str without a dot. *)
Definition no_dot (s : string) : bool :=
  forallb (fun a => negb (Ascii.eqb a "."%char)) (list_ascii_of_string s).

(** User code, and a loader, that leave the directories of the file
    system as they find them. *)
Definition keeps_directories {A} (u : U A) : Prop :=
  forall w, dir_of (snd (u w)) = dir_of w.

Definition loader_keeps_directories
    (load_module : string -> string -> U PyModule) : Prop :=
  (forall name path, keeps_directories (load_module name path)) /\
  (forall name path w py_mod w' attr class arg,
     load_module name path w = (Ok py_mod, w') ->
     py_mod attr = Some class -> keeps_directories (class arg)).

(** What a function that loads went through, step by step. *)
Definition loads_as (load_module : string -> string -> U PyModule)
    (fc : value) (st : State) (name : value) (module : Handler)
    (st' : State) : Prop :=
  exists codedir handler_ref parts class_name rest file_name rest'
         target dir py_mod class w2 w3 back,
    any_missing ["name"; "handler"; "codedir"] fc = Ok false /\
    py_getitem fc "codedir" = Ok codedir /\
    py_getitem fc "handler" = Ok handler_ref /\
    py_split_dot handler_ref = Ok parts /\
    list_pop parts = Ok (class_name, rest) /\
    path_join (cwd (world st)) codedir = Ok target /\
    dir_of (world st) target = Some dir /\
    list_pop rest = Ok (file_name, rest') /\
    load_module class_name (file_name ++ ".py")%string
      (set_cwd dir (set_sys_path (sys_path (world st) ++ [codedir]) (world st)))
      = (Ok py_mod, w2) /\
    py_mod class_name = Some class /\
    class codedir w2 = (Ok module, w3) /\
    py_getitem fc "name" = Ok name /\
    dir_of w3 (cwd (world st)) = Some back /\
    st' = mkState (set_cwd back w3) (trace st).

(** [d[k1][k2]] where both are there, read off the parsed section. *)
Definition nested (d : list (string * value)) (k1 k2 : string)
  : option value :=
  match dict_get k1 d with
  | Some (PDict d1) => dict_get k2 d1
  | _ => None
  end.

(** The message limit of a section: [message.length.max] or 4 MiB. *)
Definition message_limit (d : list (string * value)) : value :=
  match dict_get "message" d with
  | Some (PDict m) => default default_max_message_length (nested m "length" "max")
  | _ => default_max_message_length
  end.

(** The level a [logger] section asks for. *)
Definition configured_level (cl : list (string * value)) : Level :=
  match dict_get "level" cl with
  | Some v => level_of v
  | None => INFO
  end.

(** ** A deployment to evaluate the program on *)

(** The scenario of two functions: [echo] returns its input, [boom]
    raises.  Both live in [functions.py] under their code directory. *)
Module Scenario.

Definition directories : list string :=
  ["/srv"; "/srv/echo"; "/srv/boom"; "/srv/null"].

Definition scenario_dir_of (p : string) : option string :=
  if existsb (String.eqb p) directories then Some p else None.

Definition pem (s : string) : list byte := list_byte_of_string s.

Definition scenario_file_of (p : string) : option (list byte) :=
  if String.eqb p "/srv/tls/ca.pem" then Some (pem "CA")
  else if String.eqb p "/srv/tls/server.key" then Some (pem "KEY")
  else if String.eqb p "/srv/tls/server.pem" then Some (pem "CERT")
  else None.

Definition world0 : World :=
  mkWorld "/srv" [] ∅ scenario_dir_of scenario_file_of.

Definition st0 : State := mkState world0 [].

(** [class Echo]: [handler] returns the message. *)
Definition Echo (codedir : value) : Handler :=
  mkHandler (fun w => (Ok codedir, w)) (fun msg _ w => (Ok msg, w)).

(** [class Boom]: [handler] raises. *)
Definition Boom (codedir : value) : Handler :=
  mkHandler (fun w => (Ok codedir, w))
            (fun _ _ w => (Raise (UserError "boom"), w)).

(** [class Const]: [handler] returns a fixed object. *)
Definition Const (v : value) (codedir : value) : Handler :=
  mkHandler (fun w => (Ok codedir, w)) (fun _ _ w => (Ok v, w)).

Definition blob : value := PList [PBytes [x00%byte]].

Definition functions_py : PyModule :=
  fun name =>
    if String.eqb name "Echo"
    then Some (fun codedir w => (Ok (Echo codedir), w))
    else if String.eqb name "Boom"
    then Some (fun codedir w => (Ok (Boom codedir), w))
    else if String.eqb name "Null"
    then Some (fun codedir w => (Ok (Const PNone codedir), w))
    else if String.eqb name "Blob"
    then Some (fun codedir w => (Ok (Const blob codedir), w))
    else None.

(** The loader finds [functions.py] in the three code directories. *)
Definition scenario_load_module (name path : string) : U PyModule :=
  fun w =>
    let file := posix_join (cwd w) path in
    if existsb (String.eqb file)
         ["/srv/echo/functions.py"; "/srv/boom/functions.py";
          "/srv/null/functions.py"]
    then (Ok functions_py, w)
    else (Raise (OSError path), w).

Definition no_effect : value -> U unit := fun _ w => (Ok tt, w).

Definition function_spec (name handler codedir : string) : value :=
  PDict [("name", PStr name); ("handler", PStr handler);
         ("codedir", PStr codedir)].

Definition functions : value :=
  PList [function_spec "echo" "functions.Echo" "echo";
         function_spec "boom" "functions.Boom" "boom"].

(** Two functions under one name. *)
Definition repeated_name : value :=
  PList [function_spec "echo" "functions.Echo" "echo";
         function_spec "echo" "functions.Boom" "boom"].

(** A function whose module file is not there. *)
Definition missing_module : value :=
  PList [function_spec "echo" "missing.Echo" "echo"].

(** A function without a code directory, after a good one. *)
Definition no_codedir : value :=
  PList [function_spec "echo" "functions.Echo" "echo";
         PDict [("name", PStr "boom"); ("handler", PStr "functions.Boom")]].

Definition registry : gmap string Handler :=
  <["blob" := Const blob (PStr "null")]>
    (<["null" := Const PNone (PStr "null")]>
       (<["boom" := Boom (PStr "boom")]>
          (<["echo" := Echo (PStr "echo")]> ∅))).

Definition bytes (s : string) : list byte := list_byte_of_string s.

Definition tls_section : value :=
  PDict [("address", PStr "0.0.0.0:50051");
         ("ca", PStr "tls/ca.pem"); ("key", PStr "tls/server.key");
         ("cert", PStr "tls/server.pem");
         ("workers", PDict [("max", PInt 4)])].

Definition key_only_section : value :=
  PDict [("address", PStr "0.0.0.0:50051"); ("key", PStr "tls/server.key")].

Definition self : mo :=
  mkMo (PDict []) (mkLogger (PStr "host") None None) registry
       (mkGrpcServer None [] None (insecure_port (PStr "0.0.0.0:50051"))).

Definition request (name payload : string) : Request :=
  mkRequest name (bytes payload) 1 "topic" 1572825600 "invoke-1".

(** A configuration file with a name and the functions but no
    [server] section, and the environment that sets the address. *)
Definition no_server_config : list (string * value) :=
  [("name", PStr "host"); ("functions", functions)].

Definition world_with_address : World :=
  mkWorld "/srv" [] {[ADDRESS_ENV := "0.0.0.0:50051"]}
          scenario_dir_of scenario_file_of.

Definition st_with_address : State := mkState world_with_address [].

(** [class Wander]: [handler] returns the message from another
    directory. *)
Definition Wander (codedir : value) : Handler :=
  mkHandler (fun w => (Ok codedir, w))
            (fun msg _ w => (Ok msg, set_cwd "/srv/boom" w)).

(** A registry with a handler that wanders and one whose code
    directory is not there. *)
Definition stray_registry : gmap string Handler :=
  <["wander" := Wander (PStr "echo")]> (<["lost" := Echo (PStr "nowhere")]> ∅).

Definition stray_self : mo :=
  mkMo (PDict []) (mkLogger (PStr "host") None None) stray_registry
       (mkGrpcServer None [] None (insecure_port (PStr "0.0.0.0:50051"))).

(** A function whose handler reference has no module part. *)
Definition no_module_spec : list (string * value) :=
  [("name", PStr "echo"); ("handler", PStr "Echo"); ("codedir", PStr "echo")].

Definition tls_entries : list (string * value) :=
  [("address", PStr "0.0.0.0:50051");
   ("ca", PStr "tls/ca.pem"); ("key", PStr "tls/server.key");
   ("cert", PStr "tls/server.pem");
   ("workers", PDict [("max", PInt 4)])].

(** A section that names a [ca] file that is not there, and no key. *)
Definition lost_ca_entries : list (string * value) :=
  [("address", PStr "0.0.0.0:50051"); ("ca", PStr "tls/lost.pem")].

(** A configuration with a log file. *)
Definition log_entries : list (string * value) :=
  [("path", PStr "var/log/host.log"); ("level", PStr "warn");
   ("backup", PDict [("max", PInt 3)])].

Definition logging_config : list (string * value) :=
  [("name", PStr "host"); ("logger", PDict log_entries)].

(** The environment that sets the name and the address. *)
Definition world_with_overrides : World :=
  mkWorld "/srv" []
          (<[NAME_ENV := "edge-host"]> {[ADDRESS_ENV := "0.0.0.0:50051"]})
          scenario_dir_of scenario_file_of.

Definition st_with_overrides : State := mkState world_with_overrides [].

(** A configuration file whose server section has an address and a
    timeout. *)
Definition full_config : list (string * value) :=
  [("name", PStr "host");
   ("server", PDict [("address", PStr "127.0.0.1:1"); ("timeout", PInt 5)]);
   ("functions", functions)].

End Scenario.

(** * Properties *)

Local Open Scope list_scope.

(** ** Reasoning about the state monad *)

Ltac unfold_monad :=
  unfold bind, try_except, lift, ret, raise, run_user, getcwd, chdir,
    log_error, sys_path_append in *.

Lemma bind_ok {A B} (m : M A) (f : A -> M B) st a st' :
  m st = (Ok a, st') -> bind m f st = f a st'.
Proof. intros E. unfold bind. now rewrite E. Qed.

Lemma bind_raise {A B} (m : M A) (f : A -> M B) st e st' :
  m st = (Raise e, st') -> bind m f st = (Raise e, st').
Proof. intros E. unfold bind. now rewrite E. Qed.

Lemma bind_inv_ok {A B} (m : M A) (f : A -> M B) st b st' :
  bind m f st = (Ok b, st') ->
  exists a st1, m st = (Ok a, st1) /\ f a st1 = (Ok b, st').
Proof.
  unfold bind. destruct (m st) as [[a | e] st1]; intros E.
  - eauto.
  - discriminate.
Qed.

Section Dispatcher.

Context `{JsonLib}.

(** Whatever goes wrong in the first [try] block leaves the dispatcher
    as an exception tagged [UserCodeInvoke], after it was logged. *)
Lemma invoke_raise_inv name module msg ctx st x st' :
  invoke name module msg ctx st = (Raise x, st') ->
  exists err st1,
    x = ExceptionFrom user_code_invoke err /\ st' = emit (LogError err) st1.
Proof.
  unfold invoke, try_except.
  match goal with |- context [?m st] => destruct (m st) as [[a | e] st1] end.
  - discriminate.
  - unfold_monad. intros E. inversion E. eauto.
Qed.

(** The payload of the reply when the handler block returned [msg]. *)
Lemma Call_after_invoke self request module msg st st1 :
  modules self !! FunctionName request = Some module ->
  invoke (FunctionName request) module
         (decode_payload (Payload request)) (make_ctx request) st
    = (Ok msg, st1) ->
  Call self request st =
    bind (encode_result msg) (fun p => ret (set_Payload p request)) st1.
Proof.
  intros Hm Hi. unfold Call. rewrite Hm.
  now rewrite (bind_ok _ _ _ _ _ Hi).
Qed.

(** C4. A request that names a function absent from the registry
    fails with [Exception('function not found')] and nothing else
    happens: the state, with its record of invoked handlers and of the
    working directory, is the one before the call. *)
Theorem Call_function_not_found (self : mo) (request : Request) (st : State) :
  modules self !! FunctionName request = None ->
  Call self request st = (Raise function_not_found, st).
Proof.
  intros Hm. unfold Call. now rewrite Hm.
Qed.

(** Every outcome of [encode_result] keeps the trace it started from
    as a prefix. *)
Lemma encode_result_trace msg st :
  exists rest, trace (snd (encode_result msg st)) = trace st ++ rest.
Proof.
  destruct msg; simpl;
    try (exists []; now rewrite app_nil_r);
    unfold_monad; destruct (json_dumps _); simpl;
    try (exists []; now rewrite app_nil_r); eauto.
Qed.


(** An object that is neither [None] nor bytes goes through
    [json.dumps]: its text is encoded, its failure logged and wrapped. *)
Lemma encode_result_dumps msg st :
  msg <> PNone -> (forall b, msg <> PBytes b) ->
  encode_result msg st =
    match json_dumps msg with
    | Ok s => (Ok (str_encode s), st)
    | Raise err =>
        (Raise (ExceptionFrom user_code_return err), emit (LogError err) st)
    end.
Proof.
  intros N1 N2.
  destruct msg; try congruence; try (exfalso; eapply N2; reflexivity);
    unfold encode_result; unfold_monad; now destruct (json_dumps _).
Qed.

(** C6. What the handler returned decides the payload of the reply:
    [None] gives the empty bytes, bytes are passed on as they are, any
    other object is dumped as JSON and encoded as UTF-8.  An object
    [json.dumps] rejects is logged and raised with the tag
    [UserCodeReturn], which no failure of the handler block carries:
    those are raised with the tag [UserCodeInvoke]. *)
Theorem Call_encodes_result (self : mo) (request : Request)
    (module : Handler) (st : State) :
  modules self !! FunctionName request = Some module ->
  let handler_block :=
    invoke (FunctionName request) module
           (decode_payload (Payload request)) (make_ctx request) st in
  (forall msg st1, handler_block = (Ok msg, st1) ->
     (msg = PNone ->
        Call self request st = (Ok (set_Payload [] request), st1)) /\
     (forall b, msg = PBytes b ->
        Call self request st = (Ok (set_Payload b request), st1)) /\
     (forall s, msg <> PNone -> (forall b, msg <> PBytes b) ->
        json_dumps msg = Ok s ->
        Call self request st
          = (Ok (set_Payload (str_encode s) request), st1)) /\
     (forall err, msg <> PNone -> (forall b, msg <> PBytes b) ->
        json_dumps msg = Raise err ->
        Call self request st
          = (Raise (ExceptionFrom user_code_return err),
             emit (LogError err) st1))) /\
  (forall x st1, handler_block = (Raise x, st1) ->
     Call self request st = (Raise x, st1) /\
     exists err, x = ExceptionFrom user_code_invoke err) /\
  (forall err err',
     ExceptionFrom user_code_return err <> ExceptionFrom user_code_invoke err').
Proof.
  intros Hm handler_block. subst handler_block.
  split; [| split].
  - intros msg st1 Hi.
    rewrite (Call_after_invoke _ _ _ _ _ _ Hm Hi). unfold bind, ret.
    split; [| split; [| split]].
    + now intros ->.
    + now intros b ->.
    + intros s N1 N2 E. now rewrite (encode_result_dumps _ _ N1 N2), E.
    + intros err N1 N2 E. now rewrite (encode_result_dumps _ _ N1 N2), E.
  - intros x st1 Hi. split.
    + unfold Call. rewrite Hm. now rewrite (bind_raise _ _ _ _ _ Hi).
    + destruct (invoke_raise_inv _ _ _ _ _ _ _ Hi) as (err & st2 & -> & _).
      eauto.
  - intros err err' E. inversion E.
Qed.

(** When the handler block returns, the working directory is the one
    [os.chdir(curr_path)] lands in: the directory before the call, as
    long as that path still names it. *)
Lemma invoke_ok_restores_cwd name module msg ctx st r st1 :
  invoke name module msg ctx st = (Ok r, st1) ->
  dir_of (world st1) (cwd (world st)) = Some (cwd (world st)) ->
  cwd (world st1) = cwd (world st).
Proof.
  unfold invoke. unfold_monad.
  destruct (get_codedir module (world st)) as [[c | e] w1]; simpl;
    [| discriminate].
  destruct (path_join (cwd (world st)) c); simpl; [| discriminate].
  destruct (dir_of w1 a); simpl; [| discriminate].
  destruct (handler module msg ctx (set_cwd s w1)) as [[r' | e] w2]; simpl;
    [| discriminate].
  destruct (dir_of w2 (cwd (world st))) eqn:Hd; simpl; [| discriminate].
  intros E. inversion E. subst. simpl. intros E'. congruence.
Qed.

(** When the handler raises, nothing changes the directory after it:
    the call ends in the directory the handler left. *)
Lemma Call_handler_raises self request module st codedir w1 target d e w2 :
  modules self !! FunctionName request = Some module ->
  get_codedir module (world st) = (Ok codedir, w1) ->
  path_join (cwd (world st)) codedir = Ok target ->
  dir_of w1 target = Some d ->
  handler module (decode_payload (Payload request)) (make_ctx request)
          (set_cwd d w1) = (Raise e, w2) ->
  fst (Call self request st) = Raise (ExceptionFrom user_code_invoke e) /\
  world (snd (Call self request st)) = w2.
Proof.
  intros Hm Hc Hj Hd Hh. unfold Call. rewrite Hm.
  unfold invoke. unfold_monad. rewrite Hc, Hj. simpl. rewrite Hd. simpl.
  rewrite Hh. simpl. auto.
Qed.

End Dispatcher.

(** ** The round trip through [json] *)

Section JsonRoundTrip.

Import PyJson.

Lemma value_nested_ind (P : value -> Prop) :
  P PNone -> (forall b, P (PBool b)) -> (forall z, P (PInt z)) ->
  (forall s, P (PStr s)) -> (forall b, P (PBytes b)) ->
  (forall l, Forall P l -> P (PList l)) ->
  (forall d, Forall (fun kv => P (snd kv)) d -> P (PDict d)) ->
  forall v, P v.
Proof.
  intros HN HB HI HS HY HL HD. fix IH 1. intros [| b | z | s | b | l | d].
  - exact HN.
  - apply HB.
  - apply HI.
  - apply HS.
  - apply HY.
  - apply HL. induction l as [| x l IHl]; constructor; [apply IH | exact IHl].
  - apply HD. induction d as [| [k x] d IHd]; constructor; [apply IH | exact IHd].
Qed.

Lemma utf8_decode_char a b :
  utf8_decode (utf8_char a ++ b) = String a <$> utf8_decode b.
Proof.
  destruct a as [[] [] [] [] [] [] [] []]; reflexivity.
Qed.

Lemma utf8_decode_encode s : utf8_decode (str_encode s) = Some s.
Proof.
  induction s as [| a s IH]; simpl; [reflexivity |].
  now rewrite utf8_decode_char, IH.
Qed.

Lemma string_body_escape_char a r :
  string_body (escape_char a ++ r)
  = (fun '(t, r') => (String a t, r')) <$> string_body r.
Proof.
  destruct a as [[] [] [] [] [] [] [] []]; reflexivity.
Qed.

Lemma append_cons a (s t : string) : (String a s ++ t = String a (s ++ t))%string.
Proof. reflexivity. Qed.

Lemma append_nil (t : string) : (EmptyString ++ t = t)%string.
Proof. reflexivity. Qed.

Lemma app_assoc_s (a b c : string) : ((a ++ b) ++ c = a ++ (b ++ c))%string.
Proof.
  induction a as [| x a IH]; [reflexivity |].
  rewrite !append_cons. now rewrite IH.
Qed.

Lemma string_body_escape s rest :
  string_body (escape s ++ String dquote rest) = Some (s, rest).
Proof.
  induction s as [| a s IH]; simpl.
  - reflexivity.
  - rewrite app_assoc_s, string_body_escape_char, IH. reflexivity.
Qed.

Lemma digit_of_pretty_N_char n :
  (n < 10)%N -> digit_of (pretty_N_char n) = Some (Z.of_N n).
Proof.
  intros Hn. rewrite <- (N2Nat.id n).
  assert (N.to_nat n < 10)%nat as Hk by lia.
  destruct (N.to_nat n) as [| [| [| [| [| [| [| [| [| [| k]]]]]]]]]];
    try reflexivity.
  lia.
Qed.

Lemma pretty_N_go_app x : forall s r,
  (pretty_N_go x s ++ r = pretty_N_go x (s ++ r))%string.
Proof.
  induction (N.lt_wf_0 x) as [x _ IH]. intros s r.
  destruct (N.eq_dec x 0%N) as [-> | Hx].
  - now rewrite !pretty_N_go_0.
  - rewrite (pretty_N_go_step x s), (pretty_N_go_step x (s ++ r)) by lia.
    rewrite IH by (apply N.div_lt; lia). reflexivity.
Qed.

(** Reading back the digits of [x] in front of [t]. *)
Lemma more_digits_pretty_N_go x :
  exists w, forall acc t,
    more_digits acc (pretty_N_go x t) = more_digits (acc * w + Z.of_N x) t.
Proof.
  induction (N.lt_wf_0 x) as [x _ IH].
  destruct (N.eq_dec x 0%N) as [-> | Hx].
  - exists 1. intros acc t. rewrite pretty_N_go_0. f_equal. lia.
  - destruct (IH (x / 10)%N) as [w Hw]; [apply N.div_lt; lia |].
    exists (w * 10). intros acc t.
    rewrite pretty_N_go_step by lia. rewrite Hw. simpl.
    rewrite digit_of_pretty_N_char by (apply N.mod_lt; lia).
    f_equal.
    pose proof (N.div_mod x 10 ltac:(lia)) as Hd.
    rewrite N2Z.inj_div, N2Z.inj_mod in *. 
    assert (Z.of_N x = 10 * (Z.of_N x / 10) + Z.of_N x mod 10) as Hz
      by (apply Z.div_mod; lia).
    change (Z.of_N 10) with 10. lia.
Qed.

(** The first character of the digits of a positive number. *)
Lemma pretty_N_go_head x t :
  (0 < x)%N ->
  exists a r d, pretty_N_go x t = String a r /\ digit_of a = Some d /\ d <> 0.
Proof.
  revert t. induction (N.lt_wf_0 x) as [x _ IH]. intros t Hx.
  rewrite pretty_N_go_step by lia.
  destruct (N.eq_dec (x / 10)%N 0%N) as [E | E].
  - rewrite E, pretty_N_go_0.
    eexists _, _, _. split; [reflexivity |]. split.
    + apply digit_of_pretty_N_char. apply N.mod_lt. lia.
    + assert (x < 10)%N as Hlt by (apply N.div_small_iff in E; [exact E | lia]).
      rewrite N.mod_small by exact Hlt. lia.
  - apply IH; [apply N.div_lt; lia |]. apply N.neq_0_lt_0. exact E.
Qed.

Lemma length_append (a b : string) :
  String.length (a ++ b) = (String.length a + String.length b)%nat.
Proof.
  induction a as [| x a IH]; [reflexivity |].
  rewrite append_cons. simpl. now rewrite IH.
Qed.

Lemma append_nil_r (a : string) : (a ++ EmptyString = a)%string.
Proof.
  induction a as [| x a IH]; [reflexivity |].
  rewrite append_cons. now rewrite IH.
Qed.

Lemma substring_all s : substring 0 (String.length s) s = s.
Proof. induction s as [| a s IH]; simpl; [reflexivity | now rewrite IH]. Qed.

Lemma delimited_skip_ws rest : delimited rest = true -> skip_ws rest = rest.
Proof.
  destruct rest as [| a r]; [reflexivity |]. simpl.
  destruct a as [[] [] [] [] [] [] [] []]; try discriminate; reflexivity.
Qed.

Lemma delimited_more_digits acc rest :
  delimited rest = true -> more_digits acc rest = (acc, rest).
Proof.
  destruct rest as [| a r]; [reflexivity |]. simpl.
  destruct a as [[] [] [] [] [] [] [] []]; try discriminate; reflexivity.
Qed.

Lemma delimited_starts_float rest :
  delimited rest = true -> starts_float rest = false.
Proof.
  destruct rest as [| a r]; [reflexivity |]. simpl.
  destruct a as [[] [] [] [] [] [] [] []]; try discriminate; reflexivity.
Qed.

Lemma parse_value_space f t :
  parse_value f (String " " t) = parse_value f t.
Proof. destruct f; reflexivity. Qed.

Lemma parse_elements_space f t acc :
  parse_elements f (String " " t) acc = parse_elements f t acc.
Proof. destruct f; [reflexivity |]. simpl. now rewrite parse_value_space. Qed.

Lemma parse_members_space f t acc :
  parse_members f (String " " t) acc = parse_members f t acc.
Proof. destruct f; reflexivity. Qed.

Lemma literal_at word v rest :
  literal word v (word ++ rest) = Some (v, rest).
Proof.
  unfold literal.
  assert (String.prefix word (word ++ rest) = true) as ->.
  { induction word as [| a w IH]; [now destruct rest |].
    rewrite append_cons. simpl. rewrite IH.
    now destruct (ascii_dec a a). }
  f_equal. f_equal.
  rewrite length_append.
  replace (String.length word + String.length rest - String.length word)%nat
    with (String.length rest) by lia.
  induction word as [| a w IH]; [apply substring_all |].
  rewrite append_cons. exact IH.
Qed.

Lemma parse_value_null f rest :
  parse_value (S f) ("null" ++ rest) = Some (PNone, rest).
Proof.
  rewrite <- (literal_at "null" PNone rest). reflexivity.
Qed.

Lemma parse_value_true f rest :
  parse_value (S f) ("true" ++ rest) = Some (PBool true, rest).
Proof.
  rewrite <- (literal_at "true" (PBool true) rest). reflexivity.
Qed.

Lemma parse_value_false f rest :
  parse_value (S f) ("false" ++ rest) = Some (PBool false, rest).
Proof.
  rewrite <- (literal_at "false" (PBool false) rest). reflexivity.
Qed.

Lemma parse_value_string f r :
  parse_value (S f) (String dquote r)
  = (fun '(t, r') => (PStr t, r')) <$> string_body r.
Proof. reflexivity. Qed.

Lemma parse_value_number f a r :
  number_start a = true ->
  parse_value (S f) (String a r) = number (String a r).
Proof.
  destruct a as [[] [] [] [] [] [] [] []]; try discriminate; reflexivity.
Qed.

Lemma parse_value_list f a r :
  value_start a = true ->
  parse_value (S f) (String "[" (String a r)) = parse_elements f (String a r) [].
Proof.
  destruct a as [[] [] [] [] [] [] [] []]; try discriminate; reflexivity.
Qed.

Lemma parse_value_empty_list f r :
  parse_value (S f) (String "[" (String "]" r)) = Some (PList [], r).
Proof. reflexivity. Qed.

Lemma parse_value_dict f a r :
  value_start a = true ->
  parse_value (S f) (String "{" (String a r)) = parse_members f (String a r) [].
Proof.
  destruct a as [[] [] [] [] [] [] [] []]; try discriminate; reflexivity.
Qed.

Lemma parse_value_empty_dict f r :
  parse_value (S f) (String "{" (String "}" r)) = Some (PDict [], r).
Proof. reflexivity. Qed.

Lemma parse_elements_comma f s acc v r :
  parse_value f s = Some (v, String "," r) ->
  parse_elements (S f) s acc = parse_elements f r (acc ++ [v]).
Proof. intros E. simpl. now rewrite E. Qed.

Lemma parse_elements_close f s acc v r :
  parse_value f s = Some (v, String "]" r) ->
  parse_elements (S f) s acc = Some (PList (acc ++ [v]), r).
Proof. intros E. simpl. now rewrite E. Qed.

Lemma parse_members_key f r acc :
  parse_members (S f) (String dquote r) acc
  = match string_body r with
    | Some (k, r) =>
        match skip_ws r with
        | String ":" r =>
            match parse_value f r with
            | Some (v, r) =>
                match skip_ws r with
                | String "," r' => parse_members f r' (dict_set k v acc)
                | String "}" r' => Some (PDict (dict_set k v acc), r')
                | _ => None
                end
            | None => None
            end
        | _ => None
        end
    | None => None
    end.
Proof. reflexivity. Qed.

Lemma parse_members_comma f r acc k r1 v r2 :
  string_body r = Some (k, String ":" r1) ->
  parse_value f r1 = Some (v, String "," r2) ->
  parse_members (S f) (String dquote r) acc
  = parse_members f r2 (dict_set k v acc).
Proof.
  intros E1 E2. rewrite parse_members_key, E1. simpl. now rewrite E2.
Qed.

Lemma parse_members_close f r acc k r1 v r2 :
  string_body r = Some (k, String ":" r1) ->
  parse_value f r1 = Some (v, String "}" r2) ->
  parse_members (S f) (String dquote r) acc
  = Some (PDict (dict_set k v acc), r2).
Proof.
  intros E1 E2. rewrite parse_members_key, E1. simpl. now rewrite E2.
Qed.

Lemma number_digit a r d :
  digit_of a = Some d ->
  number (String a r) = (fun '(z, r) => (PInt z, r)) <$> natural (String a r).
Proof.
  destruct a as [[] [] [] [] [] [] [] []]; try discriminate; reflexivity.
Qed.

Lemma digit_number_start a d : digit_of a = Some d -> number_start a = true.
Proof. unfold number_start. now intros ->. Qed.

Lemma number_start_value_start a : number_start a = true -> value_start a = true.
Proof.
  destruct a as [[] [] [] [] [] [] [] []]; try discriminate; reflexivity.
Qed.

(** The digits of a positive number read back as that number. *)
Lemma natural_pretty_N_go p rest :
  delimited rest = true ->
  natural (pretty_N_go (N.pos p) rest) = Some (Z.pos p, rest).
Proof.
  intros Hd.
  destruct (pretty_N_go_head (N.pos p) rest) as (a & r & d & E & Ha & Hn);
    [lia |].
  destruct (more_digits_pretty_N_go (N.pos p)) as [w Hw].
  specialize (Hw 0 rest). rewrite E in Hw. simpl in Hw. rewrite Ha in Hw.
  rewrite E. simpl. rewrite Ha.
  replace (10 * 0 + d) with d in Hw by lia.
  destruct d as [| d | d]; [contradiction | |]; rewrite Hw;
    rewrite (delimited_more_digits _ _ Hd), (delimited_starts_float _ Hd);
    reflexivity.
Qed.

Lemma pretty_Z_head (z : Z) rest :
  exists a r, (pretty z ++ rest)%string = String a r /\ number_start a = true.
Proof.
  destruct z as [| p | p].
  - exists "0"%char, rest. split; reflexivity.
  - change (pretty (Z.pos p)) with (pretty_N_go (N.pos p) EmptyString).
    rewrite pretty_N_go_app, append_nil.
    destruct (pretty_N_go_head (N.pos p) rest) as (a & r & d & E & Ha & _);
      [lia |].
    exists a, r. split; [exact E | now apply (digit_number_start a d)].
  - exists "-"%char, (pretty_N_go (N.pos p) EmptyString ++ rest)%string.
    split; reflexivity.
Qed.

Lemma number_pretty (z : Z) rest :
  delimited rest = true ->
  number (pretty z ++ rest) = Some (PInt z, rest).
Proof.
  intros Hd. destruct z as [| p | p].
  - change (pretty 0 ++ rest)%string with (String "0" rest).
    unfold number, natural. simpl.
    now rewrite (delimited_starts_float _ Hd).
  - change (pretty (Z.pos p)) with (pretty_N_go (N.pos p) EmptyString).
    rewrite pretty_N_go_app, append_nil.
    destruct (pretty_N_go_head (N.pos p) rest) as (a & r & d & E & Ha & _);
      [lia |].
    pose proof (natural_pretty_N_go p rest Hd) as Hnat.
    rewrite E in *. rewrite (number_digit a r d Ha), Hnat. reflexivity.
  - change (pretty (Z.neg p) ++ rest)%string
      with (String "-" (pretty_N_go (N.pos p) EmptyString ++ rest)).
    rewrite pretty_N_go_app, append_nil.
    change (number (String "-" (pretty_N_go (N.pos p) rest)))
      with ((fun '(z, r) => (PInt (- z), r))
              <$> natural (pretty_N_go (N.pos p) rest)).
    now rewrite (natural_pretty_N_go p rest Hd).
Qed.

Lemma parse_value_int f (z : Z) rest :
  delimited rest = true ->
  parse_value (S f) (pretty z ++ rest) = Some (PInt z, rest).
Proof.
  intros Hd. destruct (pretty_Z_head z rest) as (a & r & E & Ha).
  rewrite <- (number_pretty z rest Hd). rewrite E.
  now apply parse_value_number.
Qed.

(** The text of a list, from the texts of its elements. *)
Lemma dumps_list_inv l s :
  dumps (PList l) = Ok s ->
  exists ss,
    Forall2 (fun x sx => dumps x = Ok sx) l ss /\
    s = ("[" ++ join ", " ss ++ "]")%string.
Proof.
  simpl.
  match goal with
  | |- match ?items l with _ => _ end = _ -> _ => set (it := items)
  end.
  destruct (it l) as [ss | e] eqn:E; [| discriminate].
  intros X. inversion X; subst; clear X. exists ss. split; [| reflexivity].
  clear -E. revert ss E. induction l as [| x l IH]; intros ss E.
  - inversion E. constructor.
  - simpl in E. destruct (dumps x) as [sx | e] eqn:Ex; [| discriminate].
    fold it in E. destruct (it l) as [ss' | e]; [| discriminate].
    inversion E; subst. constructor; [exact Ex | now apply IH].
Qed.

Lemma dumps_dict_inv d s :
  dumps (PDict d) = Ok s ->
  exists ss,
    Forall2 (fun kv sx => exists sv, dumps (snd kv) = Ok sv /\
                          sx = (quote (fst kv) ++ ": " ++ sv)%string) d ss /\
    s = ("{" ++ join ", " ss ++ "}")%string.
Proof.
  simpl.
  match goal with
  | |- match ?members d with _ => _ end = _ -> _ => set (it := members)
  end.
  destruct (it d) as [ss | e] eqn:E; [| discriminate].
  intros X. inversion X; subst; clear X. exists ss. split; [| reflexivity].
  clear -E. revert ss E. induction d as [| [k x] d IH]; intros ss E.
  - inversion E. constructor.
  - simpl in E. destruct (dumps x) as [sx | e] eqn:Ex; [| discriminate].
    fold it in E. destruct (it d) as [ss' | e]; [| discriminate].
    inversion E; subst. constructor; [| now apply IH].
    exists sx. split; [exact Ex | reflexivity].
Qed.

(** A JSON text starts with a character of its own. *)
Lemma dumps_head v s :
  dumps v = Ok s -> exists a r, s = String a r /\ value_start a = true.
Proof.
  destruct v as [| [] | z | s0 | b | l | d]; intros E.
  - inversion E. eexists _, _. split; reflexivity.
  - inversion E. eexists _, _. split; reflexivity.
  - inversion E. eexists _, _. split; reflexivity.
  - inversion E. destruct (pretty_Z_head z EmptyString) as (a & r & Hp & Ha).
    rewrite append_nil_r in Hp. exists a, r.
    split; [exact Hp | now apply number_start_value_start].
  - inversion E. eexists _, _. split; reflexivity.
  - discriminate.
  - destruct (dumps_list_inv l s E) as (ss & _ & ->).
    eexists _, _. split; reflexivity.
  - destruct (dumps_dict_inv d s E) as (ss & _ & ->).
    eexists _, _. split; reflexivity.
Qed.

Lemma join_cons_cons sep s1 s2 ss :
  join sep (s1 :: s2 :: ss) = (s1 ++ sep ++ join sep (s2 :: ss))%string.
Proof. reflexivity. Qed.

Lemma parse_elements_dumps l : forall ss,
  Forall reads_back l ->
  Forall2 (fun x sx => dumps x = Ok sx) l ss ->
  l <> [] ->
  forall fuel acc rest,
    (String.length (join ", " ss) + 1 < fuel)%nat ->
    parse_elements fuel (join ", " ss ++ String "]" rest) acc
    = Some (PList (acc ++ l), rest).
Proof.
  induction l as [| x l IH]; intros ss HP HF Hne fuel acc rest Hfuel;
    [contradiction |].
  inversion HF as [| x' sx l' ss' Hx HF']; subst.
  inversion HP as [| x' l' Px HP']; subst.
  destruct fuel as [| fuel]; [lia |].
  destruct l as [| y l].
  - inversion HF'; subst. simpl join.
    rewrite (parse_elements_close fuel _ acc x rest); [reflexivity |].
    apply Px; [exact Hx | simpl in Hfuel; lia | reflexivity].
  - inversion HF' as [| y' sy l'' ss'' Hy HF'']; subst.
    rewrite join_cons_cons in *.
    rewrite !length_append in Hfuel.
    change (String.length ", ") with 2%nat in Hfuel.
    rewrite !app_assoc_s.
    change (", " ++ join ", " (sy :: ss'') ++ String "]" rest)%string
      with (String "," (String " " (join ", " (sy :: ss'') ++ String "]" rest))).
    rewrite (parse_elements_comma fuel _ acc x
               (String " " (join ", " (sy :: ss'') ++ String "]" rest))).
    + rewrite parse_elements_space.
      rewrite (IH (sy :: ss'') HP' HF'); [| discriminate | lia].
      now rewrite <- app_assoc.
    + apply Px; [exact Hx | lia | reflexivity].
Qed.

Lemma dict_set_fresh k v d :
  dict_get k d = None -> dict_set k v d = d ++ [(k, v)].
Proof.
  induction d as [| [k' v'] d IH]; simpl; [reflexivity |].
  destruct (String.eqb k k'); [discriminate |].
  intros E. now rewrite IH.
Qed.

Lemma dict_get_snoc k k' v d :
  dict_get k d = None -> String.eqb k' k = false ->
  dict_get k (d ++ [(k', v)]) = None.
Proof.
  intros E N. induction d as [| [k0 v0] d IH]; simpl in *.
  - rewrite String.eqb_sym. now rewrite N.
  - destruct (String.eqb k k0); [discriminate | now apply IH].
Qed.

Lemma quote_member k sv tail :
  ((quote k ++ ": " ++ sv) ++ tail)%string
  = String dquote
      (escape k ++ String dquote (String ":" (String " " (sv ++ tail)))).
Proof.
  unfold quote. rewrite !append_cons. f_equal.
  rewrite !app_assoc_s. reflexivity.
Qed.

Lemma length_quote k : (2 <= String.length (quote k))%nat.
Proof.
  unfold quote. simpl. rewrite length_append. simpl. lia.
Qed.

Lemma parse_members_dumps d : forall ss,
  Forall (fun kv => reads_back (snd kv)) d ->
  Forall2 (fun kv sx => exists sv, dumps (snd kv) = Ok sv /\
                        sx = (quote (fst kv) ++ ": " ++ sv)%string) d ss ->
  d <> [] ->
  forall fuel acc rest,
    no_dup_keys (map fst d) = true ->
    (forall kv, In kv d -> dict_get (fst kv) acc = None) ->
    (String.length (join ", " ss) + 1 < fuel)%nat ->
    parse_members fuel (join ", " ss ++ String "}" rest) acc
    = Some (PDict (acc ++ d), rest).
Proof.
  induction d as [| [k x] d IH]; intros ss HP HF Hne fuel acc rest Hk Hacc Hfuel;
    [contradiction |].
  inversion HF as [| kv sx d' ss' (sv & Hx & ->) HF']; subst.
  inversion HP as [| kv d' Px HP']; subst. simpl in Hx, Px.
  simpl in Hk. apply andb_true_iff in Hk. destruct Hk as [Hk1 Hk2].
  apply negb_true_iff in Hk1.
  assert (forall kv, In kv d -> String.eqb k (fst kv) = false) as Hother.
  { intros kv Hin. destruct (String.eqb k (fst kv)) eqn:E; [| reflexivity].
    rewrite <- Hk1. symmetry. apply existsb_exists. exists (fst kv).
    split; [now apply in_map | exact E]. }
  assert (dict_set k x acc = acc ++ [(k, x)]) as Hset.
  { apply dict_set_fresh. apply (Hacc (k, x)). now left. }
  pose proof (length_quote k) as Hq.
  destruct fuel as [| fuel]; [lia |].
  destruct d as [| [k2 y] d].
  - inversion HF'; subst. simpl join. simpl fst.
    rewrite quote_member.
    rewrite (parse_members_close fuel _ acc k
               (String " " (sv ++ String "}" rest)) x rest).
    + now rewrite Hset.
    + apply string_body_escape.
    + rewrite parse_value_space.
      apply Px; [exact Hx | | reflexivity].
      simpl in Hfuel. rewrite !length_append in Hfuel. lia.
  - inversion HF' as [| kv sy d' ss'' Hy HF'']; subst.
    rewrite join_cons_cons in *. simpl fst in *.
    rewrite !length_append in Hfuel.
    change (String.length ", ") with 2%nat in Hfuel.
    rewrite (app_assoc_s (quote k ++ ": " ++ sv)).
    rewrite quote_member.
    rewrite (app_assoc_s ", ").
    change (", " ++ join ", " (sy :: ss'') ++ String "}" rest)%string
      with (String "," (String " " (join ", " (sy :: ss'') ++ String "}" rest))).
    rewrite (parse_members_comma fuel _ acc k
               (String " " (sv ++ String ","
                  (String " " (join ", " (sy :: ss'') ++ String "}" rest))))
               x (String " " (join ", " (sy :: ss'') ++ String "}" rest))).
    + rewrite parse_members_space, Hset.
      rewrite (IH (sy :: ss'') HP' HF'); [| discriminate | exact Hk2 | | lia].
      * now rewrite <- app_assoc.
      * intros kv Hin. apply dict_get_snoc.
        -- apply Hacc. now right.
        -- now apply Hother.
    + apply string_body_escape.
    + rewrite parse_value_space.
      apply Px; [exact Hx | lia | reflexivity].
Qed.

Lemma join_head sep a r ss tail :
  exists r', (join sep (String a r :: ss) ++ tail)%string = String a r'.
Proof.
  destruct ss as [| s2 ss].
  - simpl join. rewrite append_cons. eauto.
  - rewrite join_cons_cons, !append_cons. eauto.
Qed.

(** The text [json.dumps] writes for an object parses back to the
    object. *)
Lemma dumps_reads_back v : distinct_keys v = true -> reads_back v.
Proof.
  induction v as [| b | z | s0 | b | l IHl | d IHd] using value_nested_ind;
    intros Hwf s Hs fuel rest Hfuel Hrest;
    (destruct fuel as [| fuel]; [lia |]).
  - inversion Hs; subst. apply parse_value_null.
  - destruct b; inversion Hs; subst;
      [apply parse_value_true | apply parse_value_false].
  - inversion Hs; subst. now apply parse_value_int.
  - inversion Hs; subst. unfold quote. rewrite append_cons.
    rewrite parse_value_string, app_assoc_s.
    change (String dquote EmptyString ++ rest)%string with (String dquote rest).
    now rewrite string_body_escape.
  - discriminate.
  - destruct (dumps_list_inv l s Hs) as (ss & HF & ->).
    change ("[" ++ join ", " ss ++ "]")%string
      with (String "[" (join ", " ss ++ "]")) in *.
    rewrite append_cons, app_assoc_s.
    change ("]" ++ rest)%string with (String "]" rest).
    simpl in Hfuel. rewrite length_append in Hfuel. simpl in Hfuel.
    assert (Forall reads_back l) as HP.
    { simpl in Hwf. rewrite List.forallb_forall in Hwf.
      rewrite !List.Forall_forall in *. intros x Hin. apply (IHl x Hin).
      now apply Hwf. }
    destruct l as [| x l].
    + inversion HF; subst. apply parse_value_empty_list.
    + inversion HF as [| x' sx l' ss' Hx HF']; subst.
      destruct (dumps_head x sx Hx) as (a & r & -> & Ha).
      destruct (join_head ", " a r ss' (String "]" rest)) as [r' Hj].
      rewrite Hj, (parse_value_list fuel a r' Ha), <- Hj.
      apply (parse_elements_dumps (x :: l) _ HP HF); [discriminate | lia].
  - destruct (dumps_dict_inv d s Hs) as (ss & HF & ->).
    change ("{" ++ join ", " ss ++ "}")%string
      with (String "{" (join ", " ss ++ "}")) in *.
    rewrite append_cons, app_assoc_s.
    change ("}" ++ rest)%string with (String "}" rest).
    simpl in Hfuel. rewrite length_append in Hfuel. simpl in Hfuel.
    simpl in Hwf. apply andb_true_iff in Hwf. destruct Hwf as [Hk Hwf].
    assert (Forall (fun kv => reads_back (snd kv)) d) as HP.
    { rewrite List.forallb_forall in Hwf.
      rewrite !List.Forall_forall in *. intros [k x] Hin. apply (IHd (k, x) Hin).
      apply (Hwf (k, x) Hin). }
    destruct d as [| [k x] d].
    + inversion HF; subst. apply parse_value_empty_dict.
    + inversion HF as [| kv sx d' ss' (sv & Hx & ->) HF']; subst.
      simpl fst in *.
      destruct (join_head ", " dquote
                  ((escape k ++ String dquote EmptyString) ++ ": " ++ sv)
                  ss' (String "}" rest)) as [r' Hj].
      change (String dquote
                ((escape k ++ String dquote EmptyString) ++ ": " ++ sv))%string
        with (quote k ++ ": " ++ sv)%string in Hj.
      rewrite Hj, (parse_value_dict fuel dquote r' eq_refl), <- Hj.
      rewrite (parse_members_dumps ((k, x) :: d) _ HP HF);
        [reflexivity | discriminate | exact Hk | reflexivity | lia].
Qed.

(** [json.loads] reads back what [json.dumps] wrote. *)
Lemma loads_dumps v s :
  distinct_keys v = true -> dumps v = Ok s -> loads (str_encode s) = Ok v.
Proof.
  intros Hwf Hs. unfold loads. rewrite utf8_decode_encode.
  pose proof (dumps_reads_back v Hwf s Hs (S (String.length s)) EmptyString
                ltac:(lia) eq_refl) as Hp.
  rewrite append_nil_r in Hp. now rewrite Hp.
Qed.

End JsonRoundTrip.



(** ** The registry loader *)

Lemma app_cons_assoc {A} (l : list A) (x : A) (l' : list A) :
  (l ++ [x]) ++ l' = l ++ x :: l'.
Proof. now rewrite <- app_assoc. Qed.

Lemma keeps_sys_path_run {A} (u : U A) w r w' :
  keeps_sys_path u -> u w = (r, w') -> sys_path w' = sys_path w.
Proof. intros K E. specialize (K w). now rewrite E in K. Qed.

Lemma lacks_field_any_missing fc :
  lacks_field fc -> any_missing ["name"; "handler"; "codedir"] fc = Ok true.
Proof.
  intros (d & -> & Hd). simpl.
  destruct (dict_has "name" d); [| reflexivity].
  destruct (dict_has "handler" d); [| reflexivity].
  destruct (dict_has "codedir" d); [| reflexivity].
  destruct Hd as [Hd | [Hd | Hd]]; discriminate.
Qed.

Ltac case_step :=
  match goal with
  | |- context [match ?x with _ => _ end] =>
      lazymatch x with
      | context [match _ with _ => _ end] => fail
      | _ => destruct x eqn:?
      end
  end.

(** *** Steps that leave [sys.path] as it is *)

Lemma bind_sys_path {A B} (m : M A) (k : A -> M B) st :
  sys_path (world (snd (m st))) = sys_path (world st) ->
  (forall a st1, m st = (Ok a, st1) ->
     sys_path (world (snd (k a st1))) = sys_path (world st1)) ->
  sys_path (world (snd (bind m k st))) = sys_path (world st).
Proof.
  intros Hm Hk. unfold bind. destruct (m st) as [[a | e] st1]; simpl in *.
  - rewrite (Hk a st1 eq_refl). exact Hm.
  - exact Hm.
Qed.

Lemma try_except_sys_path {A} (m : M A) (h : exn -> M A) st :
  sys_path (world (snd (m st))) = sys_path (world st) ->
  (forall e st1, sys_path (world (snd (h e st1))) = sys_path (world st1)) ->
  sys_path (world (snd (try_except m h st))) = sys_path (world st).
Proof.
  intros Hm Hh. unfold try_except. destruct (m st) as [[a | e] st1]; simpl in *.
  - exact Hm.
  - rewrite Hh. exact Hm.
Qed.

Lemma chdir_sys_path p st :
  sys_path (world (snd (chdir p st))) = sys_path (world st).
Proof. unfold chdir. now destruct (dir_of (world st) p). Qed.

Lemma run_user_sys_path {A} (u : U A) st :
  keeps_sys_path u ->
  sys_path (world (snd (run_user u st))) = sys_path (world st).
Proof.
  intros K. unfold run_user. specialize (K (world st)).
  now destruct (u (world st)).
Qed.

Ltac frame_sys_path :=
  repeat first
    [ reflexivity
    | apply chdir_sys_path
    | apply bind_sys_path; [| intros ? ? ?]
    | apply try_except_sys_path; [| intros ? ?]
    | apply run_user_sys_path ].

Section Registry.

Variable load_module : string -> string -> U PyModule.

Lemma load_function_lacks_field fc fs st :
  lacks_field fc ->
  load_function load_module fc fs st = (Raise config_invalid_function, st).
Proof.
  intros L. unfold load_function, bind, lift.
  now rewrite (lacks_field_any_missing _ L).
Qed.

Lemma load_functions_lacks_field fcs fs st :
  Exists lacks_field fcs ->
  is_ok (fst (load_functions load_module fcs fs st)) = false.
Proof.
  intros E. revert fs st. induction E as [fc fcs L | fc fcs E IH]; intros fs st.
  - simpl. unfold bind. now rewrite (load_function_lacks_field _ _ _ L).
  - simpl. unfold bind.
    destruct (load_function load_module fc fs st) as [[fs' | e] st'].
    + apply IH.
    + reflexivity.
Qed.

(** A function loads the same way whatever the registry holds: the
    registry is only written to. *)
Lemma load_function_any_registry fc fs st fs' st' name :
  load_function load_module fc fs st = (Ok fs', st') ->
  py_getitem fc "name" = Ok (PStr name) ->
  exists module,
    fs' = <[name := module]> fs /\
    forall fs2,
      load_function load_module fc fs2 st = (Ok (<[name := module]> fs2), st').
Proof.
  unfold load_function, construct. unfold_monad.
  intros E Hn. rewrite Hn in *. simpl in *.
  repeat (revert E; case_step; intros E; try discriminate; simpl in * ).
  all: inversion E; subst; eexists; split; [reflexivity |]; intros fs2;
    reflexivity.
Qed.

(** One function: its [codedir] is appended to [sys.path] once the
    three keys are found, before anything can fail, and nothing takes
    it off again. *)
Lemma load_function_checked_sys_path fc fs st codedir :
  loader_keeps_sys_path load_module ->
  any_missing ["name"; "handler"; "codedir"] fc = Ok false ->
  py_getitem fc "codedir" = Ok codedir ->
  sys_path (world (snd (load_function load_module fc fs st)))
    = sys_path (world st) ++ [codedir].
Proof.
  intros [K1 K2] Hm Hc. unfold load_function.
  unfold bind at 1. unfold lift at 1. rewrite Hm.
  unfold bind at 1. unfold lift at 1. rewrite Hc.
  unfold bind at 1. unfold sys_path_append at 1.
  match goal with |- context [snd (?m ?s)] => set (rest := m); set (st1 := s) end.
  change (sys_path (world st) ++ [codedir]) with (sys_path (world st1)).
  subst rest. frame_sys_path.
  - apply (K1 _ _).
  - unfold construct.
    match goal with
    | L : run_user (load_module _ _) ?s = (Ok ?m, _) |- context [?m ?n] =>
        unfold run_user in L;
        destruct (load_module _ _ (world s)) as [r w] eqn:Hl;
        inversion L; subst; destruct (m n) as [class |] eqn:Ha
    end.
    + apply run_user_sys_path. apply (K2 _ _ _ _ _ _ _ _ Hl Ha).
    + reflexivity.
Qed.

Lemma load_function_sys_path fc fs st :
  loader_keeps_sys_path load_module ->
  let out := load_function load_module fc fs st in
  (exists codedir,
     py_getitem fc "codedir" = Ok codedir /\
     sys_path (world (snd out)) = sys_path (world st) ++ [codedir]) \/
  (is_ok (fst out) = false /\ sys_path (world (snd out)) = sys_path (world st)).
Proof.
  intros K out. subst out.
  destruct (any_missing ["name"; "handler"; "codedir"] fc) as [[|] | e] eqn:Hm;
    try (right; unfold load_function, bind, lift; rewrite Hm;
         split; reflexivity).
  destruct (py_getitem fc "codedir") as [codedir | e] eqn:Hc.
  - left. exists codedir. split; [reflexivity |].
    now apply load_function_checked_sys_path.
  - right. unfold load_function, bind, lift. rewrite Hm, Hc.
    split; reflexivity.
Qed.

Lemma has_fields_checked fc :
  has_fields fc ->
  any_missing ["name"; "handler"; "codedir"] fc = Ok false /\
  exists codedir, py_getitem fc "codedir" = Ok codedir.
Proof.
  intros (d & -> & Hn & Hh & Hc). simpl. rewrite Hn, Hh, Hc.
  split; [reflexivity |].
  unfold dict_has in Hc. destruct (dict_get "codedir" d) as [v |]; [| discriminate].
  now exists v.
Qed.

(** The loop over functions that all have the three keys: whether it
    returns or fails, [sys.path] has gained the [codedir] of every
    function it reached, the failing one included. *)
Lemma load_functions_reached fcs :
  loader_keeps_sys_path load_module ->
  Forall has_fields fcs ->
  forall fs st,
  let out := load_functions load_module fcs fs st in
  exists k codedirs,
    Forall2 (fun fc codedir => py_getitem fc "codedir" = Ok codedir)
            (take k fcs) codedirs /\
    sys_path (world (snd out)) = sys_path (world st) ++ codedirs /\
    (is_ok (fst out) = true -> k = length fcs) /\
    (is_ok (fst out) = false -> (1 <= k <= length fcs)%nat).
Proof.
  intros K HF. induction HF as [| fc fcs Hfc HF IH]; intros fs st out; subst out.
  - exists 0%nat, []. simpl. repeat split; try discriminate.
    + constructor.
    + now rewrite app_nil_r.
  - destruct (has_fields_checked fc Hfc) as (Hm & codedir & Hc).
    pose proof (load_function_checked_sys_path fc fs st codedir K Hm Hc) as Hs.
    simpl. unfold bind.
    destruct (load_function load_module fc fs st) as [[fs1 | e] st1];
      simpl in *.
    + destruct (IH fs1 st1) as (k & codedirs & HF2 & Hp & Hok & Hfail).
      exists (S k), (codedir :: codedirs). simpl. split; [| split; [| split]].
      * now constructor.
      * rewrite Hp, Hs. apply app_cons_assoc.
      * intros E. now rewrite (Hok E).
      * intros E. specialize (Hfail E). lia.
    + exists 1%nat, [codedir]. simpl. split; [| split; [| split]].
      * rewrite take_0. repeat constructor. exact Hc.
      * exact Hs.
      * discriminate.
      * intros _. lia.
Qed.

Lemma load_functions_sys_path fcs :
  loader_keeps_sys_path load_module ->
  forall fs st,
  let out := load_functions load_module fcs fs st in
  (exists appended,
     sys_path (world (snd out)) = sys_path (world st) ++ appended) /\
  (forall fs', fst out = Ok fs' ->
     exists codedirs,
       Forall2 (fun fc codedir => py_getitem fc "codedir" = Ok codedir)
               fcs codedirs /\
       sys_path (world (snd out)) = sys_path (world st) ++ codedirs).
Proof.
  intros K. induction fcs as [| fc fcs IH]; intros fs st out; subst out.
  - simpl. split.
    + exists []. now rewrite app_nil_r.
    + intros _ _. exists []. split; [constructor | now rewrite app_nil_r].
  - simpl. unfold bind.
    pose proof (load_function_sys_path fc fs st K) as Hf. simpl in Hf.
    destruct (load_function load_module fc fs st) as [[fs1 | e] st1];
      simpl in *.
    + destruct Hf as [(codedir & Hc & Hs) | [Hx _]]; [| discriminate].
      destruct (IH fs1 st1) as [(appended & Ha) Hok]. split.
      * exists (codedir :: appended). rewrite Ha, Hs. apply app_cons_assoc.
      * intros fs' E. destruct (Hok fs' E) as (codedirs & HF & Hp).
        exists (codedir :: codedirs). split; [now constructor |].
        rewrite Hp, Hs. apply app_cons_assoc.
    + split; [| discriminate].
      destruct Hf as [(codedir & Hc & Hs) | [_ Hs]].
      * eauto.
      * exists []. now rewrite app_nil_r.
Qed.

(** When a function loads, the working directory is the one
    [os.chdir(curr_path)] lands in: the directory before the load, as
    long as that path still names it. *)
Lemma load_function_ok_restores_cwd fc fs st fs' st' :
  load_function load_module fc fs st = (Ok fs', st') ->
  dir_of (world st') (cwd (world st)) = Some (cwd (world st)) ->
  cwd (world st') = cwd (world st).
Proof.
  unfold load_function. intros E.
  repeat (apply bind_inv_ok in E; destruct E as (? & ? & ? & E)).
  repeat match goal with
  | X : lift _ _ = (Ok _, _) |- _ => unfold lift in X; inversion X; subst; clear X
  | X : getcwd _ = (Ok _, _) |- _ => unfold getcwd in X; inversion X; subst; clear X
  end.
  destruct x; [discriminate |].
  repeat (apply bind_inv_ok in E; destruct E as (? & ? & ? & E)).
  repeat match goal with
  | X : lift _ _ = (Ok _, _) |- _ => unfold lift in X; inversion X; subst; clear X
  | X : getcwd _ = (Ok _, _) |- _ => unfold getcwd in X; inversion X; subst; clear X
  | X : ret _ _ = (Ok _, _) |- _ => unfold ret in X; inversion X; subst; clear X
  | X : sys_path_append _ _ = (Ok _, _) |- _ =>
      unfold sys_path_append in X; inversion X; subst; clear X
  end.
  simpl in *.
  match goal with
  | X : chdir ?p ?s = (Ok _, st') |- context [cwd (world st')] =>
      unfold chdir in X; destruct (dir_of (world s) p) eqn:Hd;
      inversion X; subst; clear X
  end.
  simpl. intros Hd'. congruence.
Qed.

(** C3, as the code has it.  A function configuration without
    [name], [handler] or [codedir] stops the load with the exception
    ['config invalid, missing function name, handler or codedir'] as
    soon as the loop reaches it, before any effect, so a list that
    holds one never loads.  A repeated name is no error: a function
    that loads into one registry loads the same way into any other,
    and its handler takes the place of whatever the name held. *)
Theorem load_modules_missing_field_or_repeated_name :
  (forall fc fcs fs st,
     lacks_field fc ->
     load_functions load_module (fc :: fcs) fs st
       = (Raise config_invalid_function, st)) /\
  (forall fcs st,
     Exists lacks_field fcs ->
     is_ok (fst (load_modules load_module (PList fcs) st)) = false) /\
  (forall fc fs st fs' st' name,
     load_function load_module fc fs st = (Ok fs', st') ->
     py_getitem fc "name" = Ok (PStr name) ->
     exists module,
       fs' !! name = Some module /\
       forall fs2,
         load_function load_module fc fs2 st
           = (Ok (<[name := module]> fs2), st')).
Proof.
  repeat split.
  - intros fc fcs fs st L. simpl.
    now rewrite (bind_raise _ _ _ _ _ (load_function_lacks_field fc fs st L)).
  - intros fcs st E. unfold load_modules. simpl. unfold bind, lift.
    now apply load_functions_lacks_field.
  - intros fc fs st fs' st' name E Hn.
    destruct (load_function_any_registry _ _ _ _ _ _ E Hn) as (module & -> & Hany).
    exists module. split; [apply lookup_insert_eq | exact Hany].
Qed.

(** The loader and [sys.path].  As long as the loaded code itself leaves
    [sys.path] alone, [load_modules] only ever appends to it; and when
    it returns, what it appended is the [codedir] of every configured
    function, one entry each, in the order of the configuration. *)
Lemma load_modules_sys_path c st :
  loader_keeps_sys_path load_module ->
  let out := load_modules load_module c st in
  (exists appended,
     sys_path (world (snd out)) = sys_path (world st) ++ appended) /\
  (forall fs, fst out = Ok fs ->
     exists fcs codedirs,
       py_iter c = Ok fcs /\
       Forall2 (fun fc codedir => py_getitem fc "codedir" = Ok codedir)
               fcs codedirs /\
       sys_path (world (snd out)) = sys_path (world st) ++ codedirs).
Proof.
  intros K out. subst out. unfold load_modules, bind, lift.
  destruct (py_iter c) as [fcs | e]; simpl.
  - destruct (load_functions_sys_path fcs K ∅ st) as [Ha Hok]. split.
    + exact Ha.
    + intros fs E. destruct (Hok fs E) as (codedirs & HF & Hs). eauto.
  - split; [| discriminate]. exists []. now rewrite app_nil_r.
Qed.

End Registry.

Section Lifetime.

Context `{JsonLib}.
Variable load_module : string -> string -> U PyModule.

(** A call leaves [sys.path] alone when the handler it runs does. *)
Lemma Call_sys_path self request st :
  (forall module,
     modules self !! FunctionName request = Some module ->
     keeps_sys_path (get_codedir module) /\
     forall msg ctx, keeps_sys_path (handler module msg ctx)) ->
  sys_path (world (snd (Call self request st))) = sys_path (world st).
Proof.
  intros K. unfold Call.
  destruct (modules self !! FunctionName request) as [module |];
    [| reflexivity].
  destruct (K module eq_refl) as [K1 K2].
  unfold invoke. frame_sys_path; try assumption.
  - unfold run_user. simpl.
    match goal with
    | |- context [handler module ?m ?c ?w] =>
        specialize (K2 m c w); now destruct (handler module m c w)
    end.
  - unfold encode_result. destruct a; frame_sys_path.
Qed.

(** C9. [load_modules] appends the [codedir] of each configured
    function to [sys.path], one entry per function in configuration
    order, and takes nothing off.  The entry of a function is appended
    as soon as its three keys are found, so it is there whether the
    function then loads or not: after a load that fails, [sys.path]
    holds the [codedir] of every function the loop reached, the one
    that failed included.  A call takes nothing off either.  The loaded
    code and the handlers are assumed to leave [sys.path] alone
    themselves. *)
Theorem load_modules_extends_sys_path (c : value) (st : State) :
  loader_keeps_sys_path load_module ->
  let out := load_modules load_module c st in
  (exists appended,
     sys_path (world (snd out)) = sys_path (world st) ++ appended) /\
  (forall fs, fst out = Ok fs ->
     exists fcs codedirs,
       py_iter c = Ok fcs /\
       Forall2 (fun fc codedir => py_getitem fc "codedir" = Ok codedir)
               fcs codedirs /\
       sys_path (world (snd out)) = sys_path (world st) ++ codedirs) /\
  (forall fc fs st1 codedir,
     has_fields fc -> py_getitem fc "codedir" = Ok codedir ->
     sys_path (world (snd (load_function load_module fc fs st1)))
       = sys_path (world st1) ++ [codedir]) /\
  (forall fcs,
     c = PList fcs -> Forall has_fields fcs ->
     exists k codedirs,
       Forall2 (fun fc codedir => py_getitem fc "codedir" = Ok codedir)
               (take k fcs) codedirs /\
       sys_path (world (snd out)) = sys_path (world st) ++ codedirs /\
       (is_ok (fst out) = true -> k = length fcs) /\
       (is_ok (fst out) = false -> (1 <= k <= length fcs)%nat)) /\
  (forall self request st1,
     (forall module,
        modules self !! FunctionName request = Some module ->
        keeps_sys_path (get_codedir module) /\
        forall msg ctx, keeps_sys_path (handler module msg ctx)) ->
     sys_path (world (snd (Call self request st1))) = sys_path (world st1)).
Proof.
  intros K out.
  destruct (load_modules_sys_path load_module c st K) as [Ha Hok].
  split; [exact Ha |]. split; [exact Hok |]. split; [| split].
  - intros fc fs st1 codedir Hf Hc.
    apply (load_function_checked_sys_path load_module fc fs st1 codedir K);
      [| exact Hc].
    now destruct (has_fields_checked fc Hf).
  - intros fcs -> HF. subst out. unfold load_modules, bind, lift. simpl.
    apply (load_functions_reached load_module fcs K HF).
  - intros self request st1 Kh. now apply Call_sys_path.
Qed.

End Lifetime.

(** ** The listener *)

Lemma get_if_present_state c k st : snd (get_if_present c k st) = st.
Proof.
  unfold get_if_present. unfold_monad.
  destruct (py_in k c) as [[|] | e]; simpl; try reflexivity.
  now destruct (py_getitem c k).
Qed.

Lemma get_if_present_ok c k st o st' :
  get_if_present c k st = (Ok o, st') ->
  st' = st /\ (is_Some o <-> py_in k c = Ok true).
Proof.
  unfold get_if_present. unfold_monad.
  destruct (py_in k c) as [[|] | e]; simpl; try discriminate.
  - destruct (py_getitem c k); simpl; intros E; inversion E; subst.
    split; [reflexivity |]. split; eauto.
  - intros E; inversion E; subst. split; [reflexivity |].
    split; [intros [? ?]; discriminate | discriminate].
Qed.

Lemma get_nested_ok c k1 k2 st o st' :
  get_nested c k1 k2 st = (Ok o, st') -> st' = st.
Proof.
  unfold get_nested. intros E.
  apply bind_inv_ok in E. destruct E as (o1 & st1 & E1 & E).
  apply get_if_present_ok in E1. destruct E1 as [-> _].
  destruct o1.
  - apply get_if_present_ok in E. tauto.
  - unfold ret in E. now inversion E.
Qed.

Lemma read_file_state p st : snd (read_file p st) = st.
Proof.
  unfold read_file. destruct p; try reflexivity.
  now destruct (file_of _ _).
Qed.

Lemma read_if_present_ok c k st o st' :
  read_if_present c k st = (Ok o, st') ->
  st' = st /\ (is_Some o <-> py_in k c = Ok true).
Proof.
  unfold read_if_present. intros E.
  apply bind_inv_ok in E. destruct E as (o1 & st1 & E1 & E).
  apply get_if_present_ok in E1. destruct E1 as [-> Hi].
  destruct o1 as [p |].
  - apply bind_inv_ok in E. destruct E as (b & st2 & E2 & E).
    pose proof (read_file_state p st) as Hs. rewrite E2 in Hs. simpl in Hs.
    unfold ret in E. inversion E; subst. split; [reflexivity |].
    rewrite <- Hi. split; eauto.
  - unfold ret in E. inversion E; subst. split; [reflexivity |].
    rewrite <- Hi. split; intros [? ?]; discriminate.
Qed.

Lemma get_grpc_server_ok c st s st' :
  get_grpc_server c st = (Ok s, st') ->
  st' = st /\
  (tls_applied s = true <->
     py_in "key" c = Ok true /\ py_in "cert" c = Ok true) /\
  (client_cert_verified s = true <->
     py_in "ca" c = Ok true /\ py_in "key" c = Ok true /\
     py_in "cert" c = Ok true).
Proof.
  unfold get_grpc_server. intros E.
  apply bind_inv_ok in E. destruct E as (mw & st1 & E1 & E).
  apply get_nested_ok in E1. subst st1.
  apply bind_inv_ok in E. destruct E as (mc & st1 & E1 & E).
  apply get_nested_ok in E1. subst st1.
  apply bind_inv_ok in E. destruct E as (msg & st1 & E1 & E).
  apply get_if_present_ok in E1. destruct E1 as [-> _].
  apply bind_inv_ok in E. destruct E as (lm & st1 & E1 & E).
  assert (st1 = st) as ->.
  { destruct msg; [now apply get_nested_ok in E1 |].
    unfold ret in E1. now inversion E1. }
  clear E1.
  apply bind_inv_ok in E. destruct E as (ca & st1 & E1 & E).
  apply read_if_present_ok in E1. destruct E1 as [-> Hca].
  apply bind_inv_ok in E. destruct E as (key & st1 & E1 & E).
  apply read_if_present_ok in E1. destruct E1 as [-> Hkey].
  apply bind_inv_ok in E. destruct E as (cert & st1 & E1 & E).
  apply read_if_present_ok in E1. destruct E1 as [-> Hcert].
  assert (forall (A : Type) (x : A), is_Some (Some x)) as some by eauto.
  assert (forall A : Type, ~ is_Some (@None A)) as none
    by (intros A [? ?]; discriminate).
  destruct key as [key |], cert as [cert |];
    apply bind_inv_ok in E; destruct E as (address & st1 & E1 & E);
    unfold lift in E1; unfold ret in E; inversion E1; inversion E; subst;
    (split; [reflexivity |]);
    unfold tls_applied, client_cert_verified; simpl;
    destruct ca; simpl;
    pose proof (some (list byte)) as some'; specialize (none (list byte));
    intuition (try discriminate; auto).
Qed.

Lemma get_if_present_dict d k st :
  get_if_present (PDict d) k st = (Ok (dict_get k d), st).
Proof.
  unfold get_if_present. unfold_monad. simpl. unfold dict_has.
  now destruct (dict_get k d).
Qed.

Lemma get_nested_dict d k1 k2 st :
  optional_dict k1 d ->
  exists o, get_nested (PDict d) k1 k2 st = (Ok o, st).
Proof.
  unfold optional_dict, get_nested. intros Ho.
  rewrite (bind_ok _ _ _ _ _ (get_if_present_dict d k1 st)).
  destruct (dict_get k1 d) as [[] |]; try contradiction.
  - rewrite get_if_present_dict. eauto.
  - unfold ret. eauto.
Qed.

Lemma read_if_present_dict d k st :
  readable k d st ->
  exists o, read_if_present (PDict d) k st = (Ok o, st).
Proof.
  unfold readable, read_if_present. intros Hr.
  rewrite (bind_ok _ _ _ _ _ (get_if_present_dict d k st)).
  destruct (dict_get k d) as [p |].
  - destruct Hr as [b Hb]. rewrite (bind_ok _ _ _ _ _ Hb). unfold ret. eauto.
  - unfold ret. eauto.
Qed.

Lemma get_grpc_server_returns d st :
  server_section_ok d st ->
  is_ok (fst (get_grpc_server (PDict d) st)) = true.
Proof.
  intros (Ha & Hw & Hc & Hm & Hca & Hkey & Hcert). unfold get_grpc_server.
  destruct (get_nested_dict d "workers" "max" st Hw) as [mw E].
  rewrite (bind_ok _ _ _ _ _ E). clear E.
  destruct (get_nested_dict d "concurrent" "max" st Hc) as [mc E].
  rewrite (bind_ok _ _ _ _ _ E). clear E.
  rewrite (bind_ok _ _ _ _ _ (get_if_present_dict d "message" st)).
  assert (exists lm,
            match dict_get "message" d with
            | Some m => get_nested m "length" "max"
            | None => ret None
            end st = (Ok lm, st)) as [lm E].
  { destruct (dict_get "message" d) as [[] |]; try contradiction.
    - now apply get_nested_dict.
    - unfold ret. eauto. }
  rewrite (bind_ok _ _ _ _ _ E). clear E.
  destruct (read_if_present_dict d "ca" st Hca) as [ca E].
  rewrite (bind_ok _ _ _ _ _ E). clear E.
  destruct (read_if_present_dict d "key" st Hkey) as [key E].
  rewrite (bind_ok _ _ _ _ _ E). clear E.
  destruct (read_if_present_dict d "cert" st Hcert) as [cert E].
  rewrite (bind_ok _ _ _ _ _ E). clear E.
  unfold dict_has in Ha.
  destruct key, cert; unfold_monad; simpl;
    destruct (dict_get "address" d); simpl; congruence.
Qed.

(** C8. When [get_grpc_server] returns, the port was added with TLS
    credentials exactly when the section has both [key] and [cert], and
    without TLS otherwise; the credentials ask for a client certificate
    exactly when it has [ca] as well.  It does return on a section with
    an address whose optional parts are well formed and whose TLS files
    can be read, and it changes nothing. *)
Theorem get_grpc_server_tls (c : value) (st : State) :
  (forall s st',
     get_grpc_server c st = (Ok s, st') ->
     st' = st /\
     (tls_applied s = true <->
        py_in "key" c = Ok true /\ py_in "cert" c = Ok true) /\
     (client_cert_verified s = true <->
        py_in "ca" c = Ok true /\ py_in "key" c = Ok true /\
        py_in "cert" c = Ok true)) /\
  (forall d,
     c = PDict d -> server_section_ok d st ->
     is_ok (fst (get_grpc_server c st)) = true).
Proof.
  split.
  - intros s st'. apply get_grpc_server_ok.
  - intros d -> Hok. now apply get_grpc_server_returns.
Qed.

(** ** The configuration loader *)

Lemma dict_get_set_eq k v d : dict_get k (dict_set k v d) = Some v.
Proof.
  induction d as [| [k' v'] d IH]; simpl.
  - now rewrite String.eqb_refl.
  - destruct (String.eqb k k') eqn:E; simpl; rewrite ?String.eqb_refl, ?E; auto.
Qed.

Lemma dict_get_set_ne k k' v d :
  k <> k' -> dict_get k' (dict_set k v d) = dict_get k' d.
Proof.
  intros N. assert (String.eqb k' k = false) as N'
    by (apply String.eqb_neq; congruence).
  induction d as [| [k0 v0] d IH]; simpl.
  - now rewrite N'.
  - destruct (String.eqb k k0) eqn:E; simpl.
    + apply String.eqb_eq in E. subst k0. now rewrite N'.
    + now rewrite IH.
Qed.

Lemma dict_has_set_eq k v d : dict_has k (dict_set k v d) = true.
Proof. unfold dict_has. now rewrite dict_get_set_eq. Qed.

Lemma dict_has_set_ne k k' v d :
  k <> k' -> dict_has k' (dict_set k v d) = dict_has k' d.
Proof. intros N. unfold dict_has. now rewrite dict_get_set_ne. Qed.

Lemma with_name_has_name env d :
  dict_has "name" (with_name env d) = true <-> name_available env d.
Proof.
  unfold with_name, name_available.
  destruct (env !! NAME_ENV) as [name |].
  - rewrite dict_has_set_eq. split; eauto.
  - split; [auto |]. intros [E | [? ?]]; [exact E | discriminate].
Qed.

Lemma with_name_has k env d :
  k <> "name" -> dict_has k (with_name env d) = dict_has k d.
Proof.
  intros N. unfold with_name. destruct (env !! NAME_ENV); [| reflexivity].
  apply dict_has_set_ne. congruence.
Qed.

Lemma overwrite_no_address env d :
  env !! ADDRESS_ENV = None ->
  overwrite_from_env env (PDict d) = Ok (PDict (with_name env d)).
Proof.
  intros E. unfold overwrite_from_env, with_name.
  destruct (env !! NAME_ENV); simpl; now rewrite E.
Qed.

Lemma overwrite_creates_server env d address :
  env !! ADDRESS_ENV = Some address ->
  dict_has "server" d = false ->
  overwrite_from_env env (PDict d) =
    Ok (PDict (dict_set "server" (PDict [("address", PStr address)])
                 (dict_set "server" (PDict []) (with_name env d)))).
Proof.
  intros E Hs. unfold overwrite_from_env.
  assert (dict_has "server" (with_name env d) = false) as Hs'
    by (rewrite with_name_has; [exact Hs | discriminate]).
  unfold with_name in *.
  destruct (env !! NAME_ENV); cbn [py_setitem py_in]; rewrite E, Hs';
    cbn [py_setitem py_getitem]; now rewrite dict_get_set_eq.
Qed.

Lemma overwrite_with_address_has_server env d address config :
  env !! ADDRESS_ENV = Some address ->
  overwrite_from_env env (PDict d) = Ok config ->
  exists d' s, config = PDict d' /\
    dict_get "server" d' = Some (PDict s) /\ dict_has "address" s = true /\
    (dict_has "name" d' = true <-> name_available env d).
Proof.
  intros E. unfold overwrite_from_env.
  pose proof (with_name_has_name env d) as Hn. unfold with_name in Hn.
  destruct (env !! NAME_ENV) as [name |]; cbn [py_setitem py_in]; rewrite E.
  all: match goal with
       | |- context [dict_has "server" ?x] =>
           set (d1 := x) in *; destruct (dict_has "server" d1) eqn:Hs
       end.
  all: cbn [py_setitem py_getitem]; rewrite ?dict_get_set_eq.
  all: try (unfold dict_has in Hs;
            destruct (dict_get "server" d1) as [[] |]; try discriminate).
  all: cbn [py_setitem]; intros X; inversion X; subst; clear X.
  all: eexists _, _; split; [reflexivity |]; rewrite dict_get_set_eq;
       split; [reflexivity |]; split; [apply dict_has_set_eq || reflexivity |].
  all: rewrite ?dict_has_set_ne by discriminate; exact Hn.
Qed.

Lemma overwrite_raises env d e :
  overwrite_from_env env (PDict d) = Raise e -> e = TypeError.
Proof.
  unfold overwrite_from_env.
  destruct (env !! NAME_ENV) as [name |]; cbn [py_setitem py_in];
    (destruct (env !! ADDRESS_ENV) as [address |]; [| discriminate]).
  all: match goal with
       | |- context [dict_has "server" ?x] =>
           set (d1 := x) in *; destruct (dict_has "server" d1) eqn:Hs
       end.
  all: cbn [py_setitem py_getitem]; rewrite ?dict_get_set_eq.
  all: try (unfold dict_has in Hs;
            destruct (dict_get "server" d1) as [[] |]; try discriminate).
  all: cbn [py_setitem]; intros X; inversion X; reflexivity.
Qed.

Section ConfigurationLoader.

Context `{JsonLib}.
Variable load_module : string -> string -> U PyModule.
Variable makedirs_for open_log_file : value -> U unit.

(** C10, as the code has it.  With the address override set, [Load]
    creates the [server] section when the file has none, so neither
    the check for the section nor the one for its address fails, and
    the checks pass when a name and the functions are there.  The
    exception ['config invalid, missing server'] comes out of the checks
    exactly when a name is at hand, the file has no [server] section
    and the address override is unset; [Load] then raises it before
    doing anything.  Without a name, the check for the name fails
    first. *)
Theorem Load_missing_server (d : list (string * value)) (st : State) :
  let env := environ (world st) in
  (forall address,
     env !! ADDRESS_ENV = Some address ->
     dict_has "server" d = false ->
     exists config,
       overwrite_from_env env (PDict d) = Ok config /\
       py_getitem config "server" = Ok (PDict [("address", PStr address)]) /\
       checked_config env (PDict d) <> Raise missing_server /\
       checked_config env (PDict d) <> Raise missing_address /\
       (name_available env d -> dict_has "functions" d = true ->
        checked_config env (PDict d) = Ok config)) /\
  (checked_config env (PDict d) = Raise missing_server <->
     name_available env d /\ dict_has "server" d = false /\
     env !! ADDRESS_ENV = None) /\
  (name_available env d -> dict_has "server" d = false ->
   env !! ADDRESS_ENV = None ->
   Load load_module makedirs_for open_log_file (PDict d) st
     = (Raise missing_server, st)) /\
  (~ name_available env d -> dict_has "server" d = false ->
   checked_config env (PDict d) = Raise missing_name).
Proof.
  intros env.
  assert (checked_config env (PDict d) = Raise missing_server <->
          name_available env d /\ dict_has "server" d = false /\
          env !! ADDRESS_ENV = None) as Hiff.
  { unfold checked_config. destruct (env !! ADDRESS_ENV) as [address |] eqn:E.
    - split; [| intros (_ & _ & X); discriminate].
      destruct (overwrite_from_env env (PDict d)) as [config | e] eqn:Ho.
      + destruct (overwrite_with_address_has_server _ _ _ _ E Ho)
          as (d' & s & -> & Hs & Ha & Hn).
        unfold check_config. cbn [py_in py_getitem]. unfold dict_has at 2.
        rewrite Hs. cbn [py_in]. rewrite Ha.
        destruct (dict_has "name" d'); [| discriminate].
        destruct (dict_has "functions" d'); discriminate.
      + apply overwrite_raises in Ho. subst e. discriminate.
    - rewrite (overwrite_no_address _ _ E). unfold check_config.
      cbn [py_in py_getitem].
      pose proof (with_name_has_name env d) as Hn.
      rewrite <- Hn. rewrite <- (with_name_has "server" env d) by discriminate.
      destruct (dict_has "name" (with_name env d)).
      + destruct (dict_has "server" (with_name env d)) eqn:Hs.
        * split; [| intros (_ & X & _); discriminate].
          unfold dict_has in Hs.
          destruct (dict_get "server" (with_name env d)) as [v |];
            [| discriminate].
          destruct v; cbn [py_in]; repeat case_step; discriminate.
        * tauto.
      + split; [discriminate | intros (X & _); discriminate]. }
  split; [| split; [exact Hiff | split]].
  - intros address E Hs.
    pose proof (overwrite_creates_server _ _ _ E Hs) as Ho.
    eexists. split; [exact Ho |].
    split; [cbn [py_getitem]; now rewrite dict_get_set_eq |].
    assert (forall e, checked_config env (PDict d) = Raise e ->
                      e = missing_name \/ e = missing_functions) as Hcases.
    { intros e. unfold checked_config. rewrite Ho. unfold check_config.
      cbn [py_in py_getitem]. unfold dict_has at 2.
      rewrite dict_get_set_eq. cbn [py_in]. unfold dict_has at 2. simpl.
      repeat case_step; intros X; inversion X; auto. }
    split; [| split].
    + intros X. destruct (Hcases _ X); discriminate.
    + intros X. destruct (Hcases _ X); discriminate.
    + intros Hn Hf. unfold checked_config. rewrite Ho. unfold check_config.
      cbn [py_in py_getitem]. unfold dict_has at 2.
      rewrite dict_get_set_eq. cbn [py_in]. unfold dict_has at 2. simpl.
      rewrite !dict_has_set_ne by discriminate.
      apply with_name_has_name in Hn. rewrite Hn.
      rewrite with_name_has by discriminate. now rewrite Hf.
  - intros Hn Hs E. unfold Load.
    assert (checked_config env (PDict d) = Raise missing_server) as X
      by (apply Hiff; auto).
    unfold env in X. unfold bind, lift. now rewrite X.
  - intros Hn Hs. unfold checked_config.
    destruct (env !! ADDRESS_ENV) as [address |] eqn:E.
    + pose proof (overwrite_creates_server _ _ _ E Hs) as Ho.
      destruct (overwrite_with_address_has_server _ _ _ _ E Ho)
        as (d' & s & Hd & _ & _ & Hn').
      rewrite Ho, Hd. unfold check_config. cbn [py_in].
      destruct (dict_has "name" d'); [tauto | reflexivity].
    + rewrite (overwrite_no_address _ _ E). unfold check_config.
      cbn [py_in]. pose proof (with_name_has_name env d) as Hn'.
      destruct (dict_has "name" (with_name env d)); [tauto | reflexivity].
Qed.

End ConfigurationLoader.

(** ** The program on the scenario *)

Section OnTheScenario.

Import Scenario.

(** C1. The handler of [boom] raises: the call fails with the handler's
    error under the tag [UserCodeInvoke], and the process is left in
    the code directory of [boom], not in the directory it was in
    before the call. *)
Theorem Call_handler_raise_leaves_code_directory :
  cwd (world st0) = "/srv" /\
  fst (Call self (request "boom" "[1]") st0)
    = Raise (ExceptionFrom user_code_invoke (UserError "boom")) /\
  cwd (world (snd (Call self (request "boom" "[1]") st0))) = "/srv/boom".
Proof. vm_compute. repeat split. Qed.

(** C2. The module file of the one configured function is missing:
    the load fails with the loader's error, and the process is left in
    the function's code directory, not in the directory it was in
    before the load. *)
Theorem load_modules_failure_leaves_code_directory :
  cwd (world st0) = "/srv" /\
  fst (load_modules scenario_load_module missing_module st0)
    = Raise (OSError "missing.py") /\
  cwd (world (snd (load_modules scenario_load_module missing_module st0)))
    = "/srv/echo".
Proof. vm_compute. repeat split. Qed.

(** Two configurations with the name [echo] load, and the registry
    holds one handler for the name. *)
Lemma load_modules_repeated_name_loads :
  exists fc1 fc2,
    repeated_name = PList [fc1; fc2] /\
    py_getitem fc1 "name" = Ok (PStr "echo") /\
    py_getitem fc2 "name" = Ok (PStr "echo") /\
    exists fs,
      fst (load_modules scenario_load_module repeated_name st0) = Ok fs /\
      size fs = 1%nat.
Proof.
  eexists _, _. split; [reflexivity |]. split; [reflexivity |].
  split; [reflexivity |].
  destruct (fst (load_modules scenario_load_module repeated_name st0))
    as [fs | e] eqn:E; [| vm_compute in E; discriminate].
  exists fs. split; [reflexivity |].
  assert (match fst (load_modules scenario_load_module repeated_name st0) with
          | Ok fs => size fs
          | Raise _ => 0%nat
          end = 1%nat) as S by (vm_compute; reflexivity).
  now rewrite E in S.
Qed.

Lemma load_modules_missing_field_witness :
  lacks_field (PDict [("name", PStr "boom"); ("handler", PStr "functions.Boom")]) /\
  is_ok (fst (load_modules scenario_load_module no_codedir st0)) = false.
Proof.
  assert (lacks_field
            (PDict [("name", PStr "boom"); ("handler", PStr "functions.Boom")]))
    as L by (eexists; split; [reflexivity | right; right; reflexivity]).
  split; [exact L |].
  apply (proj1 (proj2 (load_modules_missing_field_or_repeated_name
                         scenario_load_module))).
  apply Exists_cons_tl. apply Exists_cons_hd. exact L.
Defined.

Lemma Call_function_not_found_witness :
  modules self !! FunctionName (request "nope" "[1]") = None /\
  Call self (request "nope" "[1]") st0 = (Raise function_not_found, st0).
Proof.
  split; [reflexivity |]. apply Call_function_not_found. reflexivity.
Defined.


Lemma Call_encodes_result_witness :
  modules self !! FunctionName (request "blob" "hello")
    = Some (Const blob (PStr "null")) /\
  fst (Call self (request "blob" "hello") st0)
    = Raise (ExceptionFrom user_code_return TypeError).
Proof.
  split; [reflexivity |].
  pose proof (Call_encodes_result self (request "blob" "hello")
                (Const blob (PStr "null")) st0 eq_refl) as [Hok _].
  cbv zeta in Hok.
  destruct (Hok blob _ eq_refl) as (_ & _ & _ & Herr).
  rewrite (Herr TypeError); [reflexivity | discriminate | discriminate
                            | reflexivity].
Defined.



Lemma get_grpc_server_tls_witness :
  exists s,
    get_grpc_server tls_section st0 = (Ok s, st0) /\
    tls_applied s = true /\ client_cert_verified s = true.
Proof.
  destruct (get_grpc_server tls_section st0) as [[s | e] st'] eqn:E;
    [| vm_compute in E; discriminate].
  destruct (proj1 (get_grpc_server_tls tls_section st0) s st' E)
    as (-> & Ht & Hc).
  exists s. split; [reflexivity |]. split.
  - apply Ht. split; reflexivity.
  - apply Hc. repeat split; reflexivity.
Defined.

Lemma scenario_loader_keeps_sys_path :
  loader_keeps_sys_path scenario_load_module.
Proof.
  split.
  - intros name path w. unfold scenario_load_module.
    now destruct (existsb _ _).
  - intros name path w py_mod w' attr class arg.
    unfold scenario_load_module.
    destruct (existsb _ _); intros E; inversion E; subst.
    unfold functions_py.
    repeat (destruct (String.eqb attr _);
            [intros X; inversion X; intros ?; reflexivity |]).
    discriminate.
Defined.

Lemma load_modules_extends_sys_path_witness :
  sys_path (world st0) = [] /\
  (is_ok (fst (load_modules scenario_load_module missing_module st0)) = false /\
   sys_path (world (snd (load_modules scenario_load_module missing_module st0)))
     = [PStr "echo"]) /\
  (is_ok (fst (load_modules scenario_load_module functions st0)) = true /\
   sys_path (world (snd (load_modules scenario_load_module functions st0)))
     = [PStr "echo"; PStr "boom"]).
Proof.
  split; [reflexivity |]. split.
  - split; [reflexivity |].
    destruct (load_modules_extends_sys_path scenario_load_module
                missing_module st0 scenario_loader_keeps_sys_path)
      as (_ & _ & _ & Hreached & _).
    destruct (Hreached [function_spec "echo" "missing.Echo" "echo"] eq_refl)
      as (k & codedirs & HF & Hs & _ & Hfail).
    { repeat constructor. eexists. split; [reflexivity |].
      repeat split; reflexivity. }
    specialize (Hfail eq_refl). simpl in Hfail.
    assert (k = 1%nat) as -> by lia.
    inversion HF as [| fc codedir fcs cds Hc HF']; subst.
    inversion HF'; subst. inversion Hc; subst.
    exact Hs.
  - split; [reflexivity |].
    destruct (load_modules_extends_sys_path scenario_load_module
                functions st0 scenario_loader_keeps_sys_path)
      as (_ & Hok & _).
    destruct (load_modules scenario_load_module functions st0)
      as [[fs | e] st'] eqn:E; [| vm_compute in E; discriminate].
    destruct (Hok fs eq_refl) as (fcs & codedirs & Hi & HF & Hs).
    inversion Hi; subst fcs.
    inversion HF as [| fc1 cd1 fcs1 cds1 Hc1 HF1]; subst.
    inversion HF1 as [| fc2 cd2 fcs2 cds2 Hc2 HF2]; subst.
    inversion HF2; subst. inversion Hc1; subst. inversion Hc2; subst.
    exact Hs.
Defined.

(** An empty configuration and no override: the file has no [server]
    section and the address is not set, yet the error is the one for
    the name. *)
Lemma Load_empty_config_raises_missing_name :
  dict_has "server" [] = false /\
  environ (world st0) !! ADDRESS_ENV = None /\
  fst (Load scenario_load_module no_effect no_effect (PDict []) st0)
    = Raise missing_name /\
  missing_name <> missing_server.
Proof. repeat split; try reflexivity. discriminate. Qed.

Lemma Load_missing_server_witness :
  checked_config (environ (world st0)) (PDict no_server_config)
    = Raise missing_server /\
  exists config,
    checked_config (environ (world st_with_address)) (PDict no_server_config)
      = Ok config /\
    py_getitem config "server" = Ok (PDict [("address", PStr "0.0.0.0:50051")]).
Proof.
  split.
  - apply (proj1 (proj2 (Load_missing_server scenario_load_module
                           no_effect no_effect no_server_config st0))).
    repeat split; try reflexivity. left. reflexivity.
  - destruct (proj1 (Load_missing_server scenario_load_module
                       no_effect no_effect no_server_config st_with_address)
                "0.0.0.0:50051" eq_refl eq_refl)
      as (config & _ & Hs & _ & _ & Hok).
    exists config. split; [| exact Hs].
    apply Hok; [left |]; reflexivity.
Defined.

End OnTheScenario.

(** ** More on the dispatcher *)

Section DispatcherOutcomes.

Context `{JsonLib}.

(** The handler block that returns has invoked the handler once and
    logged nothing. *)
Lemma invoke_ok_trace name module msg ctx st r st1 :
  invoke name module msg ctx st = (Ok r, st1) ->
  trace st1 = trace st ++ [Invoke name msg ctx].
Proof.
  unfold invoke. unfold_monad.
  destruct (get_codedir module (world st)) as [[c | e] w1]; simpl;
    [| discriminate].
  destruct (path_join (cwd (world st)) c); simpl; [| discriminate].
  destruct (dir_of w1 a); simpl; [| discriminate].
  destruct (handler module msg ctx (set_cwd s w1)) as [[r' | e] w2]; simpl;
    [| discriminate].
  destruct (dir_of w2 (cwd (world st))); simpl; [| discriminate].
  intros E. inversion E. reflexivity.
Qed.

(** The handler block that raises has logged the error last. *)
Lemma invoke_raise_trace name module msg ctx st x st' :
  invoke name module msg ctx st = (Raise x, st') ->
  exists err before,
    x = ExceptionFrom user_code_invoke err /\
    trace st' = before ++ [LogError err].
Proof.
  intros E. destruct (invoke_raise_inv _ _ _ _ _ _ _ E) as (err & st1 & -> & ->).
  exists err, (trace st1). split; reflexivity.
Qed.

Lemma encode_result_ok msg st p st' :
  encode_result msg st = (Ok p, st') -> st' = st.
Proof.
  destruct msg; unfold encode_result; unfold_monad;
    try (intros E; now inversion E);
    destruct (json_dumps _); intros E; now inversion E.
Qed.

Lemma encode_result_raise msg st x st' :
  encode_result msg st = (Raise x, st') ->
  exists err,
    x = ExceptionFrom user_code_return err /\ st' = emit (LogError err) st.
Proof.
  destruct msg; unfold encode_result; unfold_monad;
    try discriminate;
    destruct (json_dumps _); intros E; inversion E; eauto.
Qed.

(** X1.  The reply is the request with a new payload: the function name,
    QOS, topic, timestamp and invoke id are those of the request. *)
Theorem Call_reply_envelope (self : mo) (request response : Request)
    (st st' : State) :
  Call self request st = (Ok response, st') ->
  FunctionName response = FunctionName request /\
  QOS response = QOS request /\
  Topic response = Topic request /\
  Timestamp response = Timestamp request /\
  FunctionInvokeID response = FunctionInvokeID request.
Proof.
  unfold Call. destruct (modules self !! FunctionName request); [| discriminate].
  intros E.
  apply bind_inv_ok in E. destruct E as (msg & st1 & _ & E).
  apply bind_inv_ok in E. destruct E as (p & st2 & _ & E).
  unfold ret in E. inversion E. subst. repeat split.
Qed.


(** A registered function that fails: the error is the wrapped error
    of the handler block or of the encoding, logged last. *)
Lemma Call_registered_raise (self : mo) (request : Request) (module : Handler)
    (st st' : State) (x : exn) :
  modules self !! FunctionName request = Some module ->
  Call self request st = (Raise x, st') ->
  exists tag err before,
    (tag = user_code_invoke \/ tag = user_code_return) /\
    x = ExceptionFrom tag err /\
    trace st' = before ++ [LogError err].
Proof.
  intros Hm. unfold Call. rewrite Hm. unfold bind. intros E.
  destruct (invoke _ _ _ _ st) as [[msg | e] st1] eqn:Hi.
  - destruct (encode_result msg st1) as [[p | e] st2] eqn:He.
    + discriminate.
    + inversion E; subst.
      destruct (encode_result_raise _ _ _ _ He) as (err & -> & ->).
      exists user_code_return, err, (trace st1). auto.
  - inversion E; subst.
    destruct (invoke_raise_trace _ _ _ _ _ _ _ Hi) as (err & before & -> & Ht).
    exists user_code_invoke, err, before. auto.
Qed.

(** X3.  The errors of a call.  Either the function is not registered, and
    then nothing happened; or the error is the wrapped error of the
    handler block or of the encoding, and the last thing the servicer
    did was to log the original error. *)
Theorem Call_error_logged (self : mo) (request : Request) (st st' : State)
    (x : exn) :
  Call self request st = (Raise x, st') ->
  (modules self !! FunctionName request = None /\
   x = function_not_found /\ st' = st) \/
  (is_Some (modules self !! FunctionName request) /\
   exists tag err before,
     (tag = user_code_invoke \/ tag = user_code_return) /\
     x = ExceptionFrom tag err /\
     trace st' = before ++ [LogError err]).
Proof.
  intros E.
  destruct (modules self !! FunctionName request) as [module |] eqn:Hm.
  - right. split; [eauto |].
    exact (Call_registered_raise _ _ _ _ _ _ Hm E).
  - left. unfold Call in E. rewrite Hm in E. unfold raise in E.
    inversion E. auto.
Qed.

(** X4.  When the code directory cannot be entered, because what
    [get_codedir] returned is no str or because [os.chdir] fails, the
    handler is not invoked: the call fails with the wrapped error, which
    is logged, and the working directory is the one [get_codedir]
    left. *)
Theorem Call_cannot_enter_code_directory (self : mo) (request : Request)
    (module : Handler) (st : State) (codedir : value) (w1 : World) :
  modules self !! FunctionName request = Some module ->
  get_codedir module (world st) = (Ok codedir, w1) ->
  match path_join (cwd (world st)) codedir with
  | Ok target => dir_of w1 target = None
  | Raise _ => True
  end ->
  exists err,
    Call self request st =
      (Raise (ExceptionFrom user_code_invoke err),
       mkState w1 (trace st ++ [LogError err])) /\
    err = match path_join (cwd (world st)) codedir with
          | Ok target => OSError target
          | Raise e => e
          end.
Proof.
  intros Hm Hc Hd. unfold Call. rewrite Hm.
  unfold invoke. unfold_monad. rewrite Hc. simpl.
  destruct (path_join (cwd (world st)) codedir) as [target | e]; simpl.
  - rewrite Hd. simpl. eexists. split; reflexivity.
  - eexists. split; reflexivity.
Qed.

(** X5.  When the handler returns, whether the reply can be encoded or not,
    the process is back in the directory [os.chdir(curr_path)] lands
    in, whatever directory the handler moved to: the directory before
    the call, as long as that path still names it. *)
Theorem Call_return_restores_cwd (self : mo) (request : Request)
    (st st' : State) (r : Result Request) :
  Call self request st = (r, st') ->
  (is_ok r = true \/ exists err, r = Raise (ExceptionFrom user_code_return err)) ->
  dir_of (world st') (cwd (world st)) = Some (cwd (world st)) ->
  cwd (world st') = cwd (world st).
Proof.
  unfold Call.
  destruct (modules self !! FunctionName request) as [module |].
  - unfold bind.
    destruct (invoke _ _ _ _ st) as [[msg | e] st1] eqn:Hi.
    + destruct (encode_result msg st1) as [[p | e] st2] eqn:He.
      * apply encode_result_ok in He. subst st2.
        unfold ret. intros E _. inversion E; subst.
        now apply (invoke_ok_restores_cwd _ _ _ _ _ _ _ Hi).
      * destruct (encode_result_raise _ _ _ _ He) as (err & -> & ->).
        intros E _. inversion E; subst. simpl.
        now apply (invoke_ok_restores_cwd _ _ _ _ _ _ _ Hi).
    + destruct (invoke_raise_inv _ _ _ _ _ _ _ Hi) as (err & st2 & -> & _).
      intros E Hr. inversion E; subst.
      destruct Hr as [Hok | [err' Hr]]; [discriminate | inversion Hr].
  - unfold raise. intros E Hr. inversion E; subst.
    destruct Hr as [Hok | [err' Hr]]; [discriminate | inversion Hr].
Qed.

End DispatcherOutcomes.

(** ** More on the registry loader *)

Lemma split_on_no_dot s : no_dot s = true -> split_on "."%char s = [s].
Proof.
  induction s as [| a s IH]; simpl; [reflexivity |].
  unfold no_dot. simpl. intros E. apply andb_prop in E. destruct E as [Ea Es].
  apply negb_true_iff in Ea. rewrite Ea. now rewrite (IH Es).
Qed.

Lemma list_pop_app {A} (l : list A) (x : A) : list_pop (l ++ [x]) = Ok (x, l).
Proof. unfold list_pop. rewrite rev_app_distr. simpl. now rewrite rev_involutive. Qed.

Lemma registry_set_lookup name module fs fs' n :
  registry_set name module fs = Ok fs' ->
  (is_Some (fs' !! n) <-> is_Some (fs !! n) \/ name = PStr n).
Proof.
  destruct name; simpl; intros E; inversion E; subst; clear E;
    try (split; [auto | intros [? | ?]; [assumption | discriminate]]).
  destruct (decide (s = n)) as [-> | N].
  - rewrite lookup_insert_eq. split; eauto.
  - rewrite lookup_insert_ne by exact N.
    split; [auto | intros [? | X]; [assumption | congruence]].
Qed.

Section RegistryOutcomes.

Variable load_module : string -> string -> U PyModule.

Lemma load_function_ok_inv fc fs st fs' st' :
  load_function load_module fc fs st = (Ok fs', st') ->
  exists name module,
    loads_as load_module fc st name module st' /\
    registry_set name module fs = Ok fs'.
Proof.
  unfold load_function. intros E.
  apply bind_inv_ok in E. destruct E as (missing & s0 & E0 & E).
  unfold lift in E0. inversion E0; subst; clear E0.
  destruct missing; [discriminate |].
  repeat (apply bind_inv_ok in E; destruct E as (? & ? & ? & E)).
  repeat match goal with
  | X : lift _ _ = (Ok _, _) |- _ => unfold lift in X; inversion X; subst; clear X
  | X : getcwd _ = (Ok _, _) |- _ => unfold getcwd in X; inversion X; subst; clear X
  | X : ret _ _ = (Ok _, _) |- _ => unfold ret in X; inversion X; subst; clear X
  | X : sys_path_append _ _ = (Ok _, _) |- _ =>
      unfold sys_path_append in X; inversion X; subst; clear X
  end.
  simpl in *.
  repeat match goal with
  | X : chdir ?p ?s = (Ok _, _) |- _ =>
      unfold chdir in X; simpl in X;
      let D := fresh "Hdir" in
      destruct (dir_of _ p) eqn:D; inversion X; subst; clear X
  end.
  match goal with
  | X : run_user (load_module _ _) _ = (Ok _, _) |- _ =>
      unfold run_user in X; simpl in X;
      let L := fresh "Hload" in
      destruct (load_module _ _ _) as [rl wl] eqn:L; inversion X; subst; clear X
  end.
  match goal with
  | X : construct ?m ?n _ _ = (Ok _, _) |- _ =>
      unfold construct in X;
      let C := fresh "Hclass" in
      destruct (m n) as [class |] eqn:C; [| discriminate];
      unfold run_user in X; simpl in X;
      let K := fresh "Hnew" in
      destruct (class _ _) as [rc wc] eqn:K; inversion X; subst; clear X
  end.
  simpl in *.
  repeat match goal with
  | X : list_pop _ = Ok ?p |- _ => is_var p; destruct p; simpl in *
  end.
  repeat match goal with
  | X1 : py_getitem fc "codedir" = Ok ?a, X2 : py_getitem fc "codedir" = Ok ?b
    |- _ =>
      lazymatch a with
      | b => fail
      | _ => assert (a = b) by congruence; subst
      end
  end.
  eexists _, _. split; [| eassumption].
  unfold loads_as.
  do 14 eexists. repeat (split; [eassumption || reflexivity |]).
  reflexivity.
Qed.

Lemma loads_as_load_function fc fs st name module st' fs' :
  loads_as load_module fc st name module st' ->
  registry_set name module fs = Ok fs' ->
  load_function load_module fc fs st = (Ok fs', st').
Proof.
  intros (codedir & handler_ref & parts & class_name & rest & file_name &
          rest' & target & dir & py_mod & class & w2 & w3 & back &
          Hm & Hc & Hh & Hs & Hp1 & Hj & Hd & Hp2 & Hl & Ha & Hn & Hname &
          Hb & ->) Hr.
  unfold load_function, construct. unfold_monad.
  rewrite Hm, Hc, Hh, Hs, Hp1. simpl. rewrite Hj. simpl.
  rewrite Hd, Hp2. simpl.
  rewrite Hl. simpl. rewrite Ha. simpl. rewrite Hn. simpl.
  rewrite Hname, Hr. simpl.
  now rewrite Hb.
Qed.


Lemma load_functions_names fcs :
  forall fs st fs' st',
  load_functions load_module fcs fs st = (Ok fs', st') ->
  forall n,
    is_Some (fs' !! n) <->
    is_Some (fs !! n) \/
    exists fc, In fc fcs /\ py_getitem fc "name" = Ok (PStr n).
Proof.
  induction fcs as [| fc fcs IH]; intros fs st fs' st' E n.
  - simpl in E. unfold ret in E. inversion E; subst.
    split; [auto | intros [? | (fc & [] & _)]; assumption].
  - simpl in E. apply bind_inv_ok in E. destruct E as (fs1 & st1 & E1 & E).
    apply load_function_ok_inv in E1.
    destruct E1 as (name & module & Hl & Hr).
    destruct Hl as (? & ? & ? & ? & ? & ? & ? & ? & ? & ? & ? & ? & ? & ? &
                    _ & _ & _ & _ & _ & _ & _ & _ & _ & _ & _ & Hname & _).
    rewrite (IH _ _ _ _ E n), (registry_set_lookup _ _ _ _ n Hr).
    split.
    + intros [[Hs | ->] | (fc' & Hin & Hn)].
      * auto.
      * right. exists fc. split; [now left | exact Hname].
      * right. exists fc'. split; [now right | exact Hn].
    + intros [Hs | (fc' & [<- | Hin] & Hn)].
      * auto.
      * left. right. congruence.
      * right. eauto.
Qed.

(** X7.  The names of the registry.  When [load_modules] returns, a str is
    a key of the registry exactly when it is the name of one of the
    configured functions. *)
Theorem load_modules_registry_names (c : value) (st st' : State)
    (fs : gmap string Handler) :
  load_modules load_module c st = (Ok fs, st') ->
  exists fcs,
    py_iter c = Ok fcs /\
    forall n,
      is_Some (fs !! n) <->
      exists fc, In fc fcs /\ py_getitem fc "name" = Ok (PStr n).
Proof.
  unfold load_modules. intros E.
  apply bind_inv_ok in E. destruct E as (fcs & st1 & E1 & E).
  unfold lift in E1. inversion E1; subst. exists fcs. split; [assumption |].
  intros n. rewrite (load_functions_names _ _ _ _ _ E n).
  rewrite lookup_empty. split.
  - intros [[? X] | X]; [discriminate | exact X].
  - auto.
Qed.

(** X8.  A handler reference without a dot.  The function has its three
    keys and its code directory can be entered, so the directory is
    put on [sys.path] and entered; then the second [pop] finds the list
    empty.  The load fails with [IndexError] and leaves the process in
    the code directory. *)
Theorem load_function_handler_without_module (d : list (string * value))
    (fs : gmap string Handler) (st : State) (name : value)
    (handler_ref codedir dir : string) :
  dict_get "name" d = Some name ->
  dict_get "handler" d = Some (PStr handler_ref) ->
  dict_get "codedir" d = Some (PStr codedir) ->
  no_dot handler_ref = true ->
  dir_of (world st) (posix_join (cwd (world st)) codedir) = Some dir ->
  load_function load_module (PDict d) fs st =
    (Raise IndexError,
     mkState (set_cwd dir
                (set_sys_path (sys_path (world st) ++ [PStr codedir])
                              (world st)))
             (trace st)).
Proof.
  intros Hn Hh Hc Hd Hdir.
  unfold load_function. unfold_monad. simpl. unfold dict_has.
  rewrite Hn, Hh, Hc. simpl. rewrite (split_on_no_dot _ Hd). simpl.
  now rewrite Hdir.
Qed.

Lemma load_function_ok_directories fc fs st fs' st' :
  loader_keeps_directories load_module ->
  dir_of (world st) (cwd (world st)) = Some (cwd (world st)) ->
  load_function load_module fc fs st = (Ok fs', st') ->
  cwd (world st') = cwd (world st) /\ dir_of (world st') = dir_of (world st).
Proof.
  intros [K1 K2] Hcwd E. apply load_function_ok_inv in E.
  destruct E as (name & module & Hl & _).
  destruct Hl as (codedir & handler_ref & parts & class_name & rest &
                  file_name & rest' & target & dir & py_mod & class & w2 &
                  w3 & back & _ & _ & _ & _ & _ & _ & _ & _ & Hl & Ha & Hn &
                  _ & Hb & ->).
  pose proof (K1 class_name (file_name ++ ".py")%string
                (set_cwd dir
                   (set_sys_path (sys_path (world st) ++ [codedir]) (world st))))
    as D2.
  rewrite Hl in D2. simpl in D2.
  pose proof (K2 _ _ _ _ _ _ _ codedir Hl Ha w2) as D3.
  rewrite Hn in D3. simpl in D3.
  assert (dir_of w3 = dir_of (world st)) as D by congruence.
  simpl. split; [| exact D].
  rewrite D in Hb. congruence.
Qed.

Lemma load_functions_ok_directories fcs :
  loader_keeps_directories load_module ->
  forall fs st fs' st',
  dir_of (world st) (cwd (world st)) = Some (cwd (world st)) ->
  load_functions load_module fcs fs st = (Ok fs', st') ->
  cwd (world st') = cwd (world st) /\ dir_of (world st') = dir_of (world st).
Proof.
  intros K. induction fcs as [| fc fcs IH]; intros fs st fs' st' Hcwd E.
  - simpl in E. unfold ret in E. inversion E; subst. auto.
  - simpl in E. apply bind_inv_ok in E. destruct E as (fs1 & st1 & E1 & E).
    destruct (load_function_ok_directories _ _ _ _ _ K Hcwd E1) as [Hc Hd].
    destruct (IH fs1 st1 fs' st') as [Hc' Hd'].
    + now rewrite Hc, Hd.
    + exact E.
    + split; congruence.
Qed.

(** X9.  The positive side of the directory handling.  When the loaded code
    leaves the directories of the file system alone and the working
    directory is entered under its own name, a load that returns is
    back in the directory it started from: every function's relative
    code directory is taken from that same directory. *)
Theorem load_modules_ok_restores_cwd (c : value) (st st' : State)
    (fs : gmap string Handler) :
  loader_keeps_directories load_module ->
  dir_of (world st) (cwd (world st)) = Some (cwd (world st)) ->
  load_modules load_module c st = (Ok fs, st') ->
  cwd (world st') = cwd (world st) /\ dir_of (world st') = dir_of (world st).
Proof.
  intros K Hcwd. unfold load_modules. intros E.
  apply bind_inv_ok in E. destruct E as (fcs & st1 & E1 & E).
  unfold lift in E1. inversion E1; subst. clear E1.
  now apply (load_functions_ok_directories fcs K ∅ st1 fs st').
Qed.

End RegistryOutcomes.

(** ** More on the listener *)

Lemma get_if_present_ok_value c k st o st' :
  get_if_present c k st = (Ok o, st') ->
  o = match c with PDict d => dict_get k d | _ => None end.
Proof.
  unfold get_if_present. unfold_monad.
  destruct c; simpl; try discriminate.
  - destruct (is_substring k s); simpl; intros E; inversion E; reflexivity.
  - destruct (existsb (is_str k) l); simpl; intros E; inversion E; reflexivity.
  - unfold dict_has. destruct (dict_get k d); simpl; intros E; now inversion E.
Qed.

Lemma get_nested_ok_value d k1 k2 st o st' :
  get_nested (PDict d) k1 k2 st = (Ok o, st') -> o = nested d k1 k2.
Proof.
  unfold get_nested, nested. intros E.
  apply bind_inv_ok in E. destruct E as (o1 & st1 & E1 & E).
  apply get_if_present_ok_value in E1. subst o1.
  destruct (dict_get k1 d) as [c1 |].
  - apply get_if_present_ok_value in E. subst o. now destruct c1.
  - unfold ret in E. now inversion E.
Qed.

Lemma read_if_present_ok_value d k st o st' :
  read_if_present (PDict d) k st = (Ok o, st') ->
  match dict_get k d with
  | None => o = None
  | Some p => exists b, read_file p st = (Ok b, st) /\ o = Some b
  end.
Proof.
  unfold read_if_present. intros E.
  apply bind_inv_ok in E. destruct E as (o1 & st1 & E1 & E).
  pose proof (get_if_present_ok _ _ _ _ _ E1) as [-> _].
  apply get_if_present_ok_value in E1. subst o1.
  destruct (dict_get k d) as [p |].
  - apply bind_inv_ok in E. destruct E as (b & st2 & E2 & E).
    pose proof (read_file_state p st) as Hs. rewrite E2 in Hs. simpl in Hs.
    subst st2. unfold ret in E. inversion E; subst. eauto.
  - unfold ret in E. now inversion E.
Qed.

(** What a listener set-up that returns went through. *)
Lemma get_grpc_server_ok_inv d st s st' :
  get_grpc_server (PDict d) st = (Ok s, st') ->
  exists ca key cert address,
    read_if_present (PDict d) "ca" st = (Ok ca, st) /\
    read_if_present (PDict d) "key" st = (Ok key, st) /\
    read_if_present (PDict d) "cert" st = (Ok cert, st) /\
    dict_get "address" d = Some address /\
    s = mkGrpcServer (nested d "workers" "max")
          [("grpc.max_send_message_length", message_limit d);
           ("grpc.max_receive_message_length", message_limit d)]
          (nested d "concurrent" "max")
          match key, cert with
          | Some key, Some cert =>
              secure_port address
                (mkCredentials [(key, cert)] ca
                   (match ca with Some _ => true | None => false end))
          | _, _ => insecure_port address
          end.
Proof.
  unfold get_grpc_server. intros E.
  apply bind_inv_ok in E. destruct E as (mw & st1 & E1 & E).
  pose proof (get_nested_ok _ _ _ _ _ _ E1) as ->.
  apply get_nested_ok_value in E1. subst mw.
  apply bind_inv_ok in E. destruct E as (mc & st1 & E1 & E).
  pose proof (get_nested_ok _ _ _ _ _ _ E1) as ->.
  apply get_nested_ok_value in E1. subst mc.
  apply bind_inv_ok in E. destruct E as (msg & st1 & E1 & E).
  pose proof (get_if_present_ok _ _ _ _ _ E1) as [-> _].
  apply get_if_present_ok_value in E1. subst msg.
  apply bind_inv_ok in E. destruct E as (lm & st1 & E1 & E).
  assert (st1 = st /\
          default default_max_message_length lm = message_limit d) as [-> Hl].
  { unfold message_limit. destruct (dict_get "message" d) as [m |].
    - pose proof (get_nested_ok _ _ _ _ _ _ E1) as ->. split; [reflexivity |].
      unfold get_nested in E1.
      apply bind_inv_ok in E1. destruct E1 as (o1 & st1 & E1 & E2).
      pose proof (get_if_present_ok _ _ _ _ _ E1) as [-> _].
      apply get_if_present_ok_value in E1.
      destruct m; subst o1;
        try (unfold ret in E2; inversion E2; reflexivity).
      unfold nested. destruct (dict_get "length" d0) as [c1 |].
      + apply get_if_present_ok_value in E2. subst lm. now destruct c1.
      + unfold ret in E2. now inversion E2.
    - unfold ret in E1. inversion E1. auto. }
  clear E1. rewrite Hl in E. clear Hl lm.
  apply bind_inv_ok in E. destruct E as (ca & st1 & E1 & E).
  pose proof (read_if_present_ok _ _ _ _ _ E1) as [-> _].
  apply bind_inv_ok in E. destruct E as (key & st1 & E2 & E).
  pose proof (read_if_present_ok _ _ _ _ _ E2) as [-> _].
  apply bind_inv_ok in E. destruct E as (cert & st1 & E3 & E).
  pose proof (read_if_present_ok _ _ _ _ _ E3) as [-> _].
  exists ca, key, cert.
  destruct (dict_get "address" d) as [address |] eqn:Ha.
  - exists address. repeat (split; [assumption || reflexivity |]).
    destruct key, cert; unfold_monad; simpl in E; rewrite Ha in E;
      now inversion E.
  - exfalso. destruct key, cert; unfold_monad; simpl in E;
      rewrite Ha in E; discriminate.
Qed.

(** X10.  The limits of the listener.  When the set-up returns on a section,
    the size of the worker pool is [workers.max] and the cap on
    concurrent calls is [concurrent.max], each unset when the section
    does not give it, and the send and the receive limit are the same
    value: [message.length.max], or 4 MiB when the section does not
    give it. *)
Theorem get_grpc_server_limits (d : list (string * value)) (st st' : State)
    (s : GrpcServer) :
  get_grpc_server (PDict d) st = (Ok s, st') ->
  max_workers s = nested d "workers" "max" /\
  maximum_concurrent_rpcs s = nested d "concurrent" "max" /\
  options s = [("grpc.max_send_message_length", message_limit d);
               ("grpc.max_receive_message_length", message_limit d)] /\
  (dict_get "message" d = None -> message_limit d = PInt 4194304).
Proof.
  intros E. apply get_grpc_server_ok_inv in E.
  destruct E as (ca & key & cert & address & _ & _ & _ & _ & ->).
  repeat split. intros Hm. unfold message_limit. now rewrite Hm.
Qed.

(** X11.  The port of the listener.  When the set-up returns on a section
    with [key] and [cert], the port is bound to the section's address
    with one key and certificate pair, the contents of the two files;
    the root certificates are the content of the [ca] file where the
    section names one, and a client certificate is asked for exactly
    then.  Without [key] or without [cert] the port is bound to the
    address without credentials, whatever [ca] says. *)
Theorem get_grpc_server_port (d : list (string * value)) (st st' : State)
    (s : GrpcServer) :
  get_grpc_server (PDict d) st = (Ok s, st') ->
  exists address,
    dict_get "address" d = Some address /\
    match dict_get "key" d, dict_get "cert" d with
    | Some key_path, Some cert_path =>
        exists key cert ca,
          read_file key_path st = (Ok key, st) /\
          read_file cert_path st = (Ok cert, st) /\
          match dict_get "ca" d with
          | Some ca_path =>
              exists b, read_file ca_path st = (Ok b, st) /\ ca = Some b
          | None => ca = None
          end /\
          port s = secure_port address
                     (mkCredentials [(key, cert)] ca
                        (match ca with Some _ => true | None => false end))
    | _, _ => port s = insecure_port address
    end.
Proof.
  intros E. apply get_grpc_server_ok_inv in E.
  destruct E as (ca & key & cert & address & Hca & Hkey & Hcert & Ha & ->).
  exists address. split; [exact Ha |].
  apply read_if_present_ok_value in Hca, Hkey, Hcert.
  destruct (dict_get "key" d) as [key_path |].
  - destruct Hkey as (kb & Hk & ->).
    destruct (dict_get "cert" d) as [cert_path |].
    + destruct Hcert as (cb & Hc & ->).
      exists kb, cb, ca. repeat (split; [assumption |]). reflexivity.
    + subst cert. reflexivity.
  - subst key. now destruct (dict_get "cert" d).
Qed.

(** X12.  A TLS file that cannot be read.  When the section names a [ca],
    [key] or [cert] file that cannot be read, the set-up fails: also
    for a [ca] without [key] and [cert], which would not be used. *)
Theorem get_grpc_server_unreadable_file (d : list (string * value))
    (st : State) (k : string) (p : value) :
  k = "ca" \/ k = "key" \/ k = "cert" ->
  dict_get k d = Some p ->
  is_ok (fst (read_file p st)) = false ->
  is_ok (fst (get_grpc_server (PDict d) st)) = false.
Proof.
  intros Hk Hd Hr.
  destruct (get_grpc_server (PDict d) st) as [[s | e] st'] eqn:E;
    [| reflexivity].
  exfalso. apply get_grpc_server_ok_inv in E.
  destruct E as (ca & key & cert & address & Hca & Hkey & Hcert & _ & _).
  apply read_if_present_ok_value in Hca, Hkey, Hcert.
  destruct Hk as [-> | [-> | ->]]; rewrite Hd in *.
  - destruct Hca as (b & Hb & _). now rewrite Hb in Hr.
  - destruct Hkey as (b & Hb & _). now rewrite Hb in Hr.
  - destruct Hcert as (b & Hb & _). now rewrite Hb in Hr.
Qed.

(** ** The logger *)

Lemma is_str_true k v : is_str k v = true <-> v = PStr k.
Proof.
  destruct v; simpl; try (split; [discriminate | intros X; inversion X]).
  rewrite String.eqb_eq. split; [now intros -> | intros X; now inversion X].
Qed.

Lemma get_nested_optional_dict d k1 k2 st :
  optional_dict k1 d ->
  get_nested (PDict d) k1 k2 st = (Ok (nested d k1 k2), st).
Proof.
  unfold optional_dict, get_nested, nested. intros Ho.
  rewrite (bind_ok _ _ _ _ _ (get_if_present_dict d k1 st)).
  destruct (dict_get k1 d) as [[] |]; try contradiction.
  - now rewrite get_if_present_dict.
  - reflexivity.
Qed.

Section LoggerSetup.

Variable makedirs_for open_log_file : value -> U unit.

(** X13.  No log file.  Without a [logger] section, or with one that has no
    [path], [get_logger] makes no directory, opens no file, sets no
    level and adds no handler.  It returns the logger asked for under
    the service name when that name is a str or is false, and raises
    TypeError when the name is true and no str. *)
Theorem get_logger_without_file (d : list (string * value)) (st : State)
    (name : value) :
  dict_get "name" d = Some name ->
  dict_get "logger" d = None \/
  (exists cl, dict_get "logger" d = Some (PDict cl) /\
              dict_has "path" cl = false) ->
  let out := get_logger makedirs_for open_log_file (PDict d) st in
  (forall n, name = PStr n -> out = (Ok (mkLogger (PStr n) None None), st)) /\
  (truthy name = false -> out = (Ok (mkLogger name None None), st)) /\
  ((forall n, name <> PStr n) -> truthy name = true ->
   out = (Raise TypeError, st)).
Proof.
  intros Hn Hl out.
  assert (forall r, getLogger name = r ->
            out = match r with
                  | Ok _ => (Ok (mkLogger name None None), st)
                  | Raise e => (Raise e, st)
                  end) as Hout.
  { intros r Hr. subst out. unfold get_logger. unfold_monad. simpl.
    rewrite Hn. simpl. rewrite Hr. destruct r as [[] | e]; [| reflexivity].
    unfold dict_has.
    destruct Hl as [Hl | (cl & Hl & Hp)]; rewrite Hl; simpl.
    - reflexivity.
    - now rewrite Hp. }
  split; [| split].
  - intros n ->. now apply (Hout (Ok tt)).
  - intros Ht. apply (Hout (Ok tt)). unfold getLogger. rewrite Ht.
    now destruct name.
  - intros Hs Ht. apply (Hout (Raise TypeError)). unfold getLogger.
    rewrite Ht. destruct name; try reflexivity. now destruct (Hs s).
Qed.

(** X14.  The log file.  With a [path] that is a str and a service name
    the logging library accepts, the file is the absolute, normalised
    path in the working directory; its directory is made first and the
    file is opened next.  Then, with [age.max] an int or a bool (or
    absent: 15), the logger and its one rotating handler carry the same
    level: DEBUG, WARNING or ERROR for the str ['debug'], ['warn'] or
    ['error'], and INFO for anything else or no level at all; the
    handler rotates every [age.max] hours and keeps [backup.max] files,
    15 when the section does not say.  With any other [age.max] the
    handler raises TypeError, after the directory was made and the file
    opened. *)
Theorem get_logger_file_handler (d cl : list (string * value)) (st : State)
    (name : value) (p : string) (w1 w2 : World) :
  dict_get "name" d = Some name ->
  getLogger name = Ok tt ->
  dict_get "logger" d = Some (PDict cl) ->
  dict_get "path" cl = Some (PStr p) ->
  optional_dict "age" cl -> optional_dict "backup" cl ->
  let filename := abspath (cwd (world st)) p in
  let interval := default (PInt 15) (nested cl "age" "max") in
  let backupCount := default (PInt 15) (nested cl "backup" "max") in
  makedirs_for (PStr (dirname filename)) (world st) = (Ok tt, w1) ->
  open_log_file (PStr filename) w1 = (Ok tt, w2) ->
  let level := configured_level cl in
  let out := get_logger makedirs_for open_log_file (PDict d) st in
  ((exists z, interval = PInt z) \/ (exists b, interval = PBool b) ->
   out = (Ok (mkLogger name (Some level)
                (Some (mkFileHandler (PStr filename) interval backupCount
                         level))),
          set_world w2 st)) /\
  ((forall z, interval <> PInt z) -> (forall b, interval <> PBool b) ->
   out = (Raise TypeError, set_world w2 st)) /\
  (level = DEBUG <-> dict_get "level" cl = Some (PStr "debug")) /\
  (level = WARNING <-> dict_get "level" cl = Some (PStr "warn")) /\
  (level = ERROR <-> dict_get "level" cl = Some (PStr "error")).
Proof.
  intros Hn Hg Hl Hp Ha Hb filename interval backupCount Hm Ho level out.
  assert (out =
          match rollover_interval interval with
          | Ok _ =>
              (Ok (mkLogger name (Some level)
                     (Some (mkFileHandler (PStr filename) interval backupCount
                              level))),
               set_world w2 st)
          | Raise e => (Raise e, set_world w2 st)
          end) as Hout.
  { subst out. unfold get_logger.
    unfold_monad. simpl. rewrite Hn. simpl. rewrite Hg.
    unfold dict_has. rewrite Hl. simpl.
    rewrite Hp. simpl. unfold dict_has. rewrite Hp. simpl.
    fold filename. rewrite Hm. simpl.
    rewrite get_if_present_dict.
    rewrite (get_nested_optional_dict cl "age" "max" _ Ha).
    rewrite (get_nested_optional_dict cl "backup" "max" _ Hb).
    simpl. rewrite Ho. simpl. fold interval backupCount.
    destruct (rollover_interval interval) as [[] | e]; [| reflexivity].
    subst level. unfold configured_level.
    now destruct (dict_get "level" cl). }
  split; [| split].
  - intros [[z Hz] | [b Hz]]; rewrite Hout, Hz; reflexivity.
  - intros Hz Hb'. rewrite Hout.
    destruct interval as [| b | z | | | |]; try reflexivity.
    + now destruct (Hb' b).
    + now destruct (Hz z).
  - subst level. unfold configured_level, level_of.
    destruct (dict_get "level" cl) as [v |].
    + destruct (is_str "debug" v) eqn:E1;
        [apply is_str_true in E1; subst v; simpl;
         repeat split; intros X; (reflexivity || discriminate || inversion X) |].
      destruct (is_str "warn" v) eqn:E2;
        [apply is_str_true in E2; subst v; simpl;
         repeat split; intros X; (reflexivity || discriminate || inversion X) |].
      destruct (is_str "error" v) eqn:E3;
        [apply is_str_true in E3; subst v; simpl;
         repeat split; intros X; (reflexivity || discriminate || inversion X) |].
      repeat split; intros X; try discriminate; inversion X; subst v;
        discriminate.
    + repeat split; intros X; discriminate.
Qed.

End LoggerSetup.

(** ** More on the configuration loader *)

Lemma overwrite_with_address env d address config :
  env !! ADDRESS_ENV = Some address ->
  overwrite_from_env env (PDict d) = Ok config ->
  exists section base,
    config = PDict (dict_set "server"
                      (PDict (dict_set "address" (PStr address) section)) base) /\
    (forall k, k <> "server" -> dict_get k base = dict_get k (with_name env d)) /\
    (dict_get "server" (with_name env d) = Some (PDict section) \/
     dict_get "server" (with_name env d) = None /\ section = []).
Proof.
  intros E. unfold overwrite_from_env.
  change (match env !! NAME_ENV with
          | Some name => py_setitem (PDict d) "name" (PStr name)
          | None => Ok (PDict d)
          end) with
    (match env !! NAME_ENV with
     | Some name => Ok (PDict (dict_set "name" (PStr name) d))
     | None => Ok (PDict d)
     end).
  assert (match env !! NAME_ENV with
          | Some name => Ok (PDict (dict_set "name" (PStr name) d))
          | None => Ok (PDict d)
          end = Ok (PDict (with_name env d))) as ->
    by (unfold with_name; now destruct (env !! NAME_ENV)).
  rewrite E. cbn [py_in py_setitem].
  set (d1 := with_name env d). unfold dict_has.
  destruct (dict_get "server" d1) as [v |] eqn:Hs.
  - cbn [py_getitem]. rewrite Hs.
    destruct v; cbn [py_setitem]; try discriminate.
    intros X. inversion X. exists d0, d1. auto.
  - cbn [py_setitem py_getitem]. rewrite dict_get_set_eq. cbn [py_setitem].
    intros X. inversion X. exists [], (dict_set "server" (PDict []) d1).
    split; [reflexivity |]. split; [| auto].
    intros k N. apply dict_get_set_ne. congruence.
Qed.

Lemma overwrite_name env d config name :
  env !! NAME_ENV = Some name ->
  overwrite_from_env env (PDict d) = Ok config ->
  py_getitem config "name" = Ok (PStr name).
Proof.
  intros En E.
  assert (dict_get "name" (with_name env d) = Some (PStr name)) as Hn
    by (unfold with_name; rewrite En; apply dict_get_set_eq).
  destruct (env !! ADDRESS_ENV) as [address |] eqn:Ea.
  - destruct (overwrite_with_address _ _ _ _ Ea E)
      as (section & base & -> & Hbase & _).
    cbn [py_getitem]. rewrite dict_get_set_ne by discriminate.
    rewrite Hbase by discriminate. now rewrite Hn.
  - rewrite (overwrite_no_address _ _ Ea) in E. inversion E; subst.
    cbn [py_getitem]. now rewrite Hn.
Qed.

Lemma overwrite_address env d config address :
  env !! ADDRESS_ENV = Some address ->
  overwrite_from_env env (PDict d) = Ok config ->
  exists section,
    py_getitem config "server" = Ok (PDict section) /\
    dict_get "address" section = Some (PStr address).
Proof.
  intros Ea E.
  destruct (overwrite_with_address _ _ _ _ Ea E)
    as (section & base & -> & _ & _).
  cbn [py_getitem]. eexists. rewrite dict_get_set_eq.
  split; [reflexivity |]. apply dict_get_set_eq.
Qed.

(** X15.  The overrides win.  After the overwrites the name is the value of
    the name variable when that is set, and the server section has the
    value of the address variable as its address when that is set,
    whatever the file says; with neither set the configuration is the
    file's. *)
Theorem overwrite_from_env_precedence (env : gmap string string)
    (d : list (string * value)) (config : value) :
  overwrite_from_env env (PDict d) = Ok config ->
  (forall name, env !! NAME_ENV = Some name ->
     py_getitem config "name" = Ok (PStr name)) /\
  (forall address, env !! ADDRESS_ENV = Some address ->
     exists section,
       py_getitem config "server" = Ok (PDict section) /\
       dict_get "address" section = Some (PStr address)) /\
  (env !! NAME_ENV = None -> env !! ADDRESS_ENV = None -> config = PDict d).
Proof.
  intros E. split; [| split].
  - intros name En. exact (overwrite_name _ _ _ _ En E).
  - intros address Ea. exact (overwrite_address _ _ _ _ Ea E).
  - intros En Ea. rewrite (overwrite_no_address _ _ Ea) in E.
    inversion E. unfold with_name. now rewrite En.
Qed.


(** X17.  The four checks.  On a configuration that is a dict the first
    check that fails decides the error, in the order name, server,
    server address, functions; and the checks pass exactly when the
    name, the functions and a server section that holds an address are
    all there. *)
Theorem check_config_outcome (d : list (string * value)) :
  (dict_has "name" d = false -> check_config (PDict d) = Raise missing_name) /\
  (dict_has "name" d = true -> dict_has "server" d = false ->
   check_config (PDict d) = Raise missing_server) /\
  (forall section,
     dict_has "name" d = true -> dict_get "server" d = Some section ->
     py_in "address" section = Ok false ->
     check_config (PDict d) = Raise missing_address) /\
  (forall section,
     dict_has "name" d = true -> dict_get "server" d = Some section ->
     py_in "address" section = Ok true -> dict_has "functions" d = false ->
     check_config (PDict d) = Raise missing_functions) /\
  (check_config (PDict d) = Ok tt <->
   dict_has "name" d = true /\ dict_has "functions" d = true /\
   exists section,
     dict_get "server" d = Some section /\ py_in "address" section = Ok true).
Proof.
  unfold check_config. cbn [py_in py_getitem]. unfold dict_has.
  destruct (dict_get "name" d) as [name |].
  - destruct (dict_get "server" d) as [section |].
    + destruct (py_in "address" section) as [[|] | e] eqn:Ha.
      * destruct (dict_get "functions" d) as [functions |].
        -- repeat split; try discriminate; eauto.
           ++ intros s _ X Y. inversion X; subst. congruence.
        -- repeat split; try discriminate.
           ++ intros s _ X Y. inversion X; subst. congruence.
           ++ intros (_ & X & _). discriminate.
      * repeat split; try discriminate.
        -- intros s _ X Y. inversion X; subst. congruence.
        -- intros (_ & _ & s & X & Y). inversion X; subst. congruence.
      * repeat split; try discriminate.
        -- intros s _ X Y. inversion X; subst. congruence.
        -- intros s _ X Y. inversion X; subst. congruence.
        -- intros (_ & _ & s & X & Y). inversion X; subst. congruence.
    + repeat split; try discriminate.
      intros (_ & _ & s & X & _). discriminate.
  - repeat split; try discriminate. intros (X & _). discriminate.
Qed.

Section LoadThenCall.

Context `{JsonLib}.
Variable load_module : string -> string -> U PyModule.
Variable makedirs_for open_log_file : value -> U unit.

Lemma Load_ok_inv parsed st self st' :
  Load load_module makedirs_for open_log_file parsed st = (Ok self, st') ->
  exists functions section st1 st2,
    checked_config (environ (world st)) parsed = Ok (config self) /\
    get_logger makedirs_for open_log_file (config self) st = (Ok (log self), st1) /\
    py_getitem (config self) "functions" = Ok functions /\
    load_modules load_module functions st1 = (Ok (modules self), st2) /\
    py_getitem (config self) "server" = Ok section /\
    get_grpc_server section st2 = (Ok (server self), st').
Proof.
  unfold Load. intros E.
  apply bind_inv_ok in E. destruct E as (config & s0 & E0 & E).
  unfold lift in E0. inversion E0; subst; clear E0.
  apply bind_inv_ok in E. destruct E as (log & st1 & El & E).
  apply bind_inv_ok in E. destruct E as (functions & s1 & Ef & E).
  unfold lift in Ef. inversion Ef; subst; clear Ef.
  apply bind_inv_ok in E. destruct E as (fs & st2 & Em & E).
  apply bind_inv_ok in E. destruct E as (section & s2 & Es & E).
  unfold lift in Es. inversion Es; subst; clear Es.
  apply bind_inv_ok in E. destruct E as (server & st3 & Eg & E).
  unfold ret in E. inversion E; subst; clear E. simpl.
  do 4 eexists. repeat (split; [eassumption |]). eassumption.
Qed.

(** X18.  From the configuration to the calls.  After a [Load] that returns,
    a call fails with ['function not found'] exactly when no
    configured function has the requested name: every configured name
    is served and no other. *)
Theorem Load_then_Call_function_not_found (parsed : value) (st st' : State)
    (self : mo) :
  Load load_module makedirs_for open_log_file parsed st = (Ok self, st') ->
  exists functions fcs,
    py_getitem (config self) "functions" = Ok functions /\
    py_iter functions = Ok fcs /\
    forall request st1,
      fst (Call self request st1) = Raise function_not_found <->
      ~ exists fc,
          In fc fcs /\
          py_getitem fc "name" = Ok (PStr (FunctionName request)).
Proof.
  intros E. apply Load_ok_inv in E.
  destruct E as (functions & section & st1 & st2 & _ & _ & Hf & Hm & _ & _).
  unfold load_modules in Hm.
  apply bind_inv_ok in Hm. destruct Hm as (fcs & s1 & Hi & Hm).
  unfold lift in Hi. inversion Hi as [[Hi' Hs]]. subst s1. clear Hi.
  pose proof (load_functions_names _ _ _ _ _ _ Hm) as Hnames.
  exists functions, fcs. split; [exact Hf |]. split; [exact Hi' |].
  intros request stc.
  assert (is_Some (modules self !! FunctionName request) <->
          exists fc, In fc fcs /\
                     py_getitem fc "name" = Ok (PStr (FunctionName request)))
    as <-.
  { rewrite Hnames, lookup_empty. split.
    - intros [[? X] | X]; [discriminate | exact X].
    - auto. }
  split.
  - intros Hc [module Hm'].
    destruct (Call self request stc) as [r stc'] eqn:Ec. simpl in Hc. subst r.
    destruct (Call_registered_raise _ _ _ _ _ _ Hm' Ec)
      as (tag & err & before & _ & X & _).
    discriminate.
  - intros Hn. unfold Call.
    destruct (modules self !! FunctionName request) as [module |] eqn:Hl.
    + exfalso. apply Hn. eauto.
    + reflexivity.
Qed.

End LoadThenCall.

Section LoadOverrides.

Context `{JsonLib}.
Variable load_module : string -> string -> U PyModule.
Variable makedirs_for open_log_file : value -> U unit.

Lemma get_logger_ok_name c st lg st' :
  get_logger makedirs_for open_log_file c st = (Ok lg, st') ->
  py_getitem c "name" = Ok (logger_name lg).
Proof.
  unfold get_logger. intros E.
  apply bind_inv_ok in E. destruct E as (name & s0 & E0 & E).
  unfold lift in E0. inversion E0; subst; clear E0.
  apply bind_inv_ok in E. destruct E as ([] & s0' & _ & E).
  apply bind_inv_ok in E. destruct E as (has_logger & s1 & _ & E).
  destruct (negb has_logger); [unfold ret in E; now inversion E |].
  apply bind_inv_ok in E. destruct E as (cl & s2 & _ & E).
  apply bind_inv_ok in E. destruct E as (has_path & s3 & _ & E).
  destruct (negb has_path); [unfold ret in E; now inversion E |].
  repeat (apply bind_inv_ok in E; destruct E as (? & ? & _ & E)).
  unfold ret in E. now inversion E.
Qed.

(** X19.  The overrides reach the service.  After a [Load] that returns on a
    configuration that is a dict, the logger is named by the name
    variable when that is set, and the port is bound to the value of
    the address variable when that is set, with or without TLS. *)
Theorem Load_applies_overrides (d : list (string * value)) (st st' : State)
    (self : mo) :
  Load load_module makedirs_for open_log_file (PDict d) st = (Ok self, st') ->
  (forall name, environ (world st) !! NAME_ENV = Some name ->
     logger_name (log self) = PStr name) /\
  (forall address, environ (world st) !! ADDRESS_ENV = Some address ->
     match port (server self) with
     | secure_port a _ | insecure_port a => a = PStr address
     end).
Proof.
  intros E. apply Load_ok_inv in E.
  destruct E as (functions & section & st1 & st2 & Hc & Hl & _ & _ & Hs & Hg).
  assert (overwrite_from_env (environ (world st)) (PDict d) = Ok (config self))
    as Ho.
  { unfold checked_config in Hc.
    destruct (overwrite_from_env _ _) as [c |]; [| discriminate].
    destruct (check_config c); [now inversion Hc | discriminate]. }
  split.
  - intros name En. apply get_logger_ok_name in Hl.
    rewrite (overwrite_name _ _ _ _ En Ho) in Hl. now inversion Hl.
  - intros address Ea.
    destruct (overwrite_address _ _ _ _ Ea Ho) as (s & Hs' & Ha).
    rewrite Hs' in Hs. inversion Hs; subst section.
    apply get_grpc_server_ok_inv in Hg.
    destruct Hg as (ca & key & cert & a & _ & _ & _ & Ha' & ->).
    rewrite Ha in Ha'. inversion Ha'; subst a.
    simpl. now destruct key, cert.
Qed.

End LoadOverrides.

(** ** More of the program on the scenario *)

Section MoreOnTheScenario.

Import Scenario.

Lemma Call_reply_envelope_witness :
  exists response st',
    Call self (request "echo" "[1, 2]") st0 = (Ok response, st') /\
    FunctionName response = "echo" /\
    QOS response = 1 /\
    Topic response = "topic" /\
    Timestamp response = 1572825600 /\
    FunctionInvokeID response = "invoke-1".
Proof.
  destruct (Call self (request "echo" "[1, 2]") st0)
    as [[response | e] st'] eqn:E; [| vm_compute in E; discriminate].
  exists response, st'. split; [reflexivity |].
  exact (Call_reply_envelope _ _ _ _ _ E).
Defined.


Lemma Call_error_logged_witness :
  exists x st',
    Call self (request "boom" "[1]") st0 = (Raise x, st') /\
    exists tag err before,
      (tag = user_code_invoke \/ tag = user_code_return) /\
      x = ExceptionFrom tag err /\
      trace st' = before ++ [LogError err].
Proof.
  destruct (Call self (request "boom" "[1]") st0)
    as [[response | x] st'] eqn:E; [vm_compute in E; discriminate |].
  exists x, st'. split; [reflexivity |].
  destruct (Call_error_logged _ _ _ _ _ E) as [(Hn & _) | (_ & Hl)].
  - vm_compute in Hn. discriminate.
  - exact Hl.
Defined.

Lemma Call_cannot_enter_code_directory_witness :
  dir_of world0 "/srv/nowhere" = None /\
  exists err,
    Call stray_self (request "lost" "[1]") st0 =
      (Raise (ExceptionFrom user_code_invoke err),
       mkState world0 (trace st0 ++ [LogError err])) /\
    err = OSError "/srv/nowhere".
Proof.
  split; [reflexivity |].
  exact (Call_cannot_enter_code_directory stray_self (request "lost" "[1]")
           (Echo (PStr "nowhere")) st0 (PStr "nowhere") world0
           eq_refl eq_refl eq_refl).
Defined.

Lemma Call_return_restores_cwd_witness :
  is_ok (fst (Call stray_self (request "wander" "[1]") st0)) = true /\
  cwd (world (snd (Call stray_self (request "wander" "[1]") st0))) = "/srv".
Proof.
  split; [reflexivity |].
  apply (Call_return_restores_cwd stray_self (request "wander" "[1]") st0 _
           (fst (Call stray_self (request "wander" "[1]") st0))).
  - now destruct (Call stray_self (request "wander" "[1]") st0).
  - left. reflexivity.
  - reflexivity.
Defined.


Lemma load_modules_registry_names_witness :
  exists fs st',
    load_modules scenario_load_module functions st0 = (Ok fs, st') /\
    is_Some (fs !! "boom") /\ ~ is_Some (fs !! "null").
Proof.
  destruct (load_modules scenario_load_module functions st0)
    as [[fs | e] st'] eqn:E; [| vm_compute in E; discriminate].
  exists fs, st'. split; [reflexivity |].
  destruct (load_modules_registry_names scenario_load_module _ _ _ _ E)
    as (fcs & Hi & Hn).
  inversion Hi; subst fcs. split.
  - apply Hn. exists (function_spec "boom" "functions.Boom" "boom").
    split; [right; left; reflexivity | reflexivity].
  - intros X. apply Hn in X. destruct X as (fc & [<- | [<- | []]] & X);
      discriminate.
Defined.

Lemma load_function_handler_without_module_witness :
  no_dot "Echo" = true /\
  load_function scenario_load_module (PDict no_module_spec) ∅ st0 =
    (Raise IndexError,
     mkState (set_cwd "/srv/echo"
                (set_sys_path (sys_path (world st0) ++ [PStr "echo"])
                              (world st0)))
             (trace st0)).
Proof.
  split; [reflexivity |].
  exact (load_function_handler_without_module scenario_load_module
           no_module_spec ∅ st0 (PStr "echo") "Echo" "echo" "/srv/echo"
           eq_refl eq_refl eq_refl eq_refl eq_refl).
Defined.

Lemma scenario_loader_keeps_directories :
  loader_keeps_directories scenario_load_module.
Proof.
  split.
  - intros name path w. unfold scenario_load_module.
    now destruct (existsb _ _).
  - intros name path w py_mod w' attr class arg.
    unfold scenario_load_module.
    destruct (existsb _ _); intros E; inversion E; subst.
    unfold functions_py.
    repeat (destruct (String.eqb attr _);
            [intros X; inversion X; intros ?; reflexivity |]).
    discriminate.
Defined.

Lemma load_modules_ok_restores_cwd_witness :
  exists fs st',
    load_modules scenario_load_module functions st0 = (Ok fs, st') /\
    cwd (world st') = cwd (world st0) /\
    dir_of (world st') = dir_of (world st0).
Proof.
  destruct (load_modules scenario_load_module functions st0)
    as [[fs | e] st'] eqn:E; [| vm_compute in E; discriminate].
  exists fs, st'. split; [reflexivity |].
  exact (load_modules_ok_restores_cwd scenario_load_module functions st0 st'
           fs scenario_loader_keeps_directories eq_refl E).
Defined.

Lemma get_grpc_server_limits_witness :
  exists s st',
    get_grpc_server (PDict tls_entries) st0 = (Ok s, st') /\
    max_workers s = Some (PInt 4) /\
    maximum_concurrent_rpcs s = None /\
    options s = [("grpc.max_send_message_length", PInt 4194304);
                 ("grpc.max_receive_message_length", PInt 4194304)].
Proof.
  destruct (get_grpc_server (PDict tls_entries) st0)
    as [[s | e] st'] eqn:E; [| vm_compute in E; discriminate].
  exists s, st'. split; [reflexivity |].
  destruct (get_grpc_server_limits _ _ _ _ E) as (Hw & Hc & Ho & _).
  rewrite Hw, Hc, Ho. repeat split.
Defined.

Lemma get_grpc_server_port_witness :
  exists s st',
    get_grpc_server (PDict tls_entries) st0 = (Ok s, st') /\
    port s = secure_port (PStr "0.0.0.0:50051")
               (mkCredentials [(pem "KEY", pem "CERT")] (Some (pem "CA")) true).
Proof.
  destruct (get_grpc_server (PDict tls_entries) st0)
    as [[s | e] st'] eqn:E; [| vm_compute in E; discriminate].
  exists s, st'. split; [reflexivity |].
  destruct (get_grpc_server_port _ _ _ _ E) as (address & Ha & Hp).
  inversion Ha; subst address. simpl in Hp.
  destruct Hp as (key & cert & ca & Hk & Hc & (b & Hb & ->) & ->).
  vm_compute in Hk, Hc, Hb. inversion Hk; inversion Hc; inversion Hb.
  reflexivity.
Defined.

Lemma get_grpc_server_unreadable_file_witness :
  dict_has "key" lost_ca_entries = false /\
  is_ok (fst (get_grpc_server (PDict lost_ca_entries) st0)) = false.
Proof.
  split; [reflexivity |].
  apply (get_grpc_server_unreadable_file lost_ca_entries st0 "ca"
           (PStr "tls/lost.pem")).
  - left. reflexivity.
  - reflexivity.
  - reflexivity.
Defined.

Lemma get_logger_without_file_witness :
  get_logger no_effect no_effect (PDict no_server_config) st0
    = (Ok (mkLogger (PStr "host") None None), st0) /\
  get_logger no_effect no_effect (PDict [("name", PInt 5)]) st0
    = (Raise TypeError, st0).
Proof.
  split.
  - apply (proj1 (get_logger_without_file no_effect no_effect
                    no_server_config st0 (PStr "host") eq_refl
                    (or_introl eq_refl))).
    reflexivity.
  - apply (proj2 (proj2 (get_logger_without_file no_effect no_effect
                           [("name", PInt 5)] st0 (PInt 5) eq_refl
                           (or_introl eq_refl)))).
    + intros n Hn. discriminate Hn.
    + reflexivity.
Defined.

Lemma get_logger_file_handler_witness :
  cwd world0 = "/srv" /\
  get_logger no_effect no_effect (PDict logging_config) st0
    = (Ok (mkLogger (PStr "host") (Some WARNING)
             (Some (mkFileHandler (PStr "/srv/var/log/host.log") (PInt 15)
                                  (PInt 3) WARNING))),
       st0).
Proof.
  split; [reflexivity |].
  apply (proj1 (get_logger_file_handler no_effect no_effect logging_config
                  log_entries st0 (PStr "host") "var/log/host.log"
                  world0 world0 eq_refl eq_refl eq_refl eq_refl I I
                  eq_refl eq_refl)).
  left. exists 15%Z. reflexivity.
Defined.

Lemma overwrite_from_env_precedence_witness :
  exists config section,
    overwrite_from_env (environ world_with_overrides) (PDict full_config)
      = Ok config /\
    py_getitem config "name" = Ok (PStr "edge-host") /\
    py_getitem config "server" = Ok (PDict section) /\
    dict_get "address" section = Some (PStr "0.0.0.0:50051").
Proof.
  destruct (overwrite_from_env (environ world_with_overrides)
              (PDict full_config)) as [config | e] eqn:E;
    [| vm_compute in E; discriminate].
  destruct (overwrite_from_env_precedence _ _ _ E) as (Hn & Ha & _).
  destruct (Ha "0.0.0.0:50051" eq_refl) as (section & Hs & Hd).
  exists config, section. split; [reflexivity |].
  split; [exact (Hn "edge-host" eq_refl) |]. auto.
Defined.


Lemma check_config_outcome_witness :
  check_config (PDict no_server_config) = Raise missing_server /\
  check_config (PDict full_config) = Ok tt.
Proof.
  split.
  - apply (proj1 (proj2 (check_config_outcome no_server_config)));
      reflexivity.
  - apply (proj2 (proj2 (proj2 (proj2 (check_config_outcome full_config))))).
    split; [reflexivity |]. split; [reflexivity |].
    eexists. split; reflexivity.
Defined.

Lemma Load_then_Call_function_not_found_witness :
  exists self st',
    Load scenario_load_module no_effect no_effect (PDict full_config)
         st_with_overrides = (Ok self, st') /\
    fst (Call self (request "null" "[1]") st0) = Raise function_not_found /\
    fst (Call self (request "echo" "[1]") st0) <> Raise function_not_found.
Proof.
  destruct (Load scenario_load_module no_effect no_effect (PDict full_config)
              st_with_overrides) as [[self | e] st'] eqn:E;
    [| vm_compute in E; discriminate].
  exists self, st'. split; [reflexivity |].
  destruct (Load_then_Call_function_not_found scenario_load_module
              no_effect no_effect _ _ _ _ E) as (fns & fcs & Hf & Hi & Hc).
  assert (fns = functions) as ->.
  { assert (match fst (Load scenario_load_module no_effect no_effect
                         (PDict full_config) st_with_overrides) with
            | Ok m => py_getitem (config m) "functions"
            | Raise e => Raise e
            end = Ok functions) as X by (vm_compute; reflexivity).
    rewrite E in X. simpl in X. congruence. }
  inversion Hi; subst fcs. split.
  - apply Hc. intros (fc & [<- | [<- | []]] & X); discriminate.
  - intros X. apply Hc in X. apply X.
    exists (function_spec "echo" "functions.Echo" "echo").
    split; [left; reflexivity | reflexivity].
Defined.

Lemma Load_applies_overrides_witness :
  exists self st',
    Load scenario_load_module no_effect no_effect (PDict full_config)
         st_with_overrides = (Ok self, st') /\
    logger_name (log self) = PStr "edge-host" /\
    port (server self) = insecure_port (PStr "0.0.0.0:50051").
Proof.
  destruct (Load scenario_load_module no_effect no_effect (PDict full_config)
              st_with_overrides) as [[self | e] st'] eqn:E;
    [| vm_compute in E; discriminate].
  exists self, st'. split; [reflexivity |].
  destruct (Load_applies_overrides scenario_load_module no_effect no_effect
              _ _ _ _ E) as (Hn & Ha).
  split; [exact (Hn "edge-host" eq_refl) |].
  specialize (Ha "0.0.0.0:50051" eq_refl).
  assert (tls_applied (server self) = false) as Ht.
  { assert (match fst (Load scenario_load_module no_effect no_effect
                         (PDict full_config) st_with_overrides) with
            | Ok m => tls_applied (server m)
            | Raise _ => false
            end = false) as X by (vm_compute; reflexivity).
    now rewrite E in X. }
  unfold tls_applied in Ht.
  destruct (port (server self)); [discriminate | now subst].
Defined.

End MoreOnTheScenario.
